(** * nss-mdns: the NSS entry points of [src/nss.c]

    A shallow embedding of the result accumulator ([struct userdata] and the
    three callbacks) and of the three entry points
    [_nss_mdns_gethostbyname2_r], [_nss_mdns_gethostbyname_r] and
    [_nss_mdns_gethostbyaddr_r], with the caller's buffer as a byte-addressed
    memory, followed by the properties of the record they lay out in it. *)

From Stdlib Require Import ZArith Lia Strings.Byte.
From stdpp Require Import base numbers option list vector.

Local Open Scope Z_scope.

(** ** Constants of the system headers *)

Definition AF_INET : Z := 2.
Definition AF_INET6 : Z := 10.

Definition EINVAL : Z := 22.
Definition ERANGE : Z := 34.
Definition ETIMEDOUT : Z := 110.

Definition HOST_NOT_FOUND : Z := 1.
Definition NO_RECOVERY : Z := 3.

(** [enum nss_status] of <nss.h>. *)
Inductive nss_status :=
  | NSS_STATUS_TRYAGAIN
  | NSS_STATUS_UNAVAIL
  | NSS_STATUS_NOTFOUND
  | NSS_STATUS_SUCCESS
  | NSS_STATUS_RETURN.

Global Instance nss_status_eq_dec : EqDecision nss_status.
Proof. solve_decision. Defined.

Definition MAX_ENTRIES : Z := 16.

(** The two preprocessor switches of the file.  [#ifdef NSS_IPV4_ONLY] is
    tried first, [#elif NSS_IPV6_ONLY] second. *)
Record build := {
  NSS_IPV4_ONLY : bool;
  NSS_IPV6_ONLY : bool
}.

(** Modelled from the spec: [query.h] is not among the sources.  The spec's
    ResolvedAddress is "a fixed-width byte sequence representing either a
    4-byte or 16-byte network address"; [ipv4_address_t] and
    [ipv6_address_t] are these two widths. *)
Definition ipv4_address_t : Type := vec byte 4.
Definition ipv6_address_t : Type := vec byte 16.
Definition sizeof_ipv4_address_t : Z := 4.
Definition sizeof_ipv6_address_t : Z := 16.

(** A C string is the list of its bytes up to, and without, the NUL. *)
Definition strlen (s : list byte) : Z := Z.of_nat (length s).

Definition cstring (s : list byte) : Prop := Forall (λ b, b ≠ x00) s.

(** ** Memory *)

(** A pointer is null, points into the caller's buffer ([buffer + off]) or
    at a block that [strdup] allocated. *)
Inductive ptr :=
  | NULL
  | BufPtr (off : Z)
  | HeapPtr (blk : nat).

(** The content of one byte of memory: not initialised, a plain byte, or
    the [k]-th byte of a stored pointer. *)
Inductive memval :=
  | Undef
  | MByte (b : byte)
  | MPtr (p : ptr) (k : nat).

Global Instance byte_eq_decision : EqDecision byte := byte_eq_dec.

Global Instance ptr_eq_dec : EqDecision ptr.
Proof. solve_decision. Defined.

Global Instance memval_eq_dec : EqDecision memval.
Proof. solve_decision. Defined.

(** [n] bytes starting at offset [off]. *)
Definition mem_load (m : list memval) (off n : Z) : list memval :=
  take (Z.to_nat n) (drop (Z.to_nat off) m).

(** Overwrite the bytes from offset [off] on with [vs].  The part of [vs]
    that falls behind the end of [m] is outside the object and is not
    represented. *)
Definition mem_store (m : list memval) (off : Z) (vs : list memval)
  : list memval :=
  list_inserts (Z.to_nat off) vs m.

(** The string that starts at the head of [m], if its NUL is found. *)
Fixpoint cstring_at (m : list memval) : option (list byte) :=
  match m with
  | MByte b :: m' =>
      if decide (b = x00) then Some [] else (b ::.) <$> cstring_at m'
  | _ => None
  end.

Definition load_cstring (m : list memval) (off : Z) : option (list byte) :=
  cstring_at (drop (Z.to_nat off) m).

Definition string_bytes (s : list byte) : list memval :=
  (MByte <$> s) ++ [MByte x00].

(** The heap blocks handed out by [strdup]: one entry per call, [None] for
    a call that failed. *)
Abbreviation heap := (list (option (list byte))).

Definition heap_string (h : heap) (p : ptr) : option (list byte) :=
  match p with
  | HeapPtr b => mjoin (h !! b)
  | _ => None
  end.

(** [struct hostent]. *)
Record hostent := {
  h_name : ptr;
  h_aliases : ptr;
  h_addrtype : Z;
  h_length : Z;
  h_addr_list : ptr
}.

(** [struct userdata]: [data] is the storage of the union, byte by byte. *)
Record userdata := {
  count : Z;
  data_len : Z;
  data : list memval
}.

(** What the query collaborator hands to the callbacks of a forward
    query. *)
Inductive answer :=
  | A4 (a : ipv4_address_t)
  | A6 (a : ipv6_address_t).

(** The calls that leave the file. *)
Inductive event :=
  | EvOpen (fd : Z)
  | EvQueryName (fd : Z) (name : list byte) (r : Z)
  | EvQueryIpv4 (fd : Z) (addr : list byte) (r : Z)
  | EvQueryIpv6 (fd : Z) (addr : list byte) (r : Z)
  | EvClose (fd : Z).

Global Instance event_eq_dec : EqDecision event.
Proof. solve_decision. Defined.

(** Modelled from the spec: [query.c] is not among the sources.  Section 6
    of the spec gives its contract: [openChannel() -> Channel | Error];
    [queryByName(channel, name, wantAddr4, wantAddr6, sink) -> Ok | Error],
    where the "sink receives zero or more addresses of the requested
    families, synchronously, before the call returns"; and
    [queryByAddress(channel, address, sink) -> Ok | Error], where the "sink
    receives zero or more resolved names".  The collaborator is a parameter
    of the model: what it answers, and whether the n-th [strdup] of the C
    library finds memory. *)
Record collaborator := {
  open_socket : Z * Z;  (* the descriptor returned, and [errno] afterwards *)
  query_name : Z → list byte → bool → bool → list answer * Z;
  query_ipv4 : Z → list byte → list (list byte) * Z;
  query_ipv6 : Z → list byte → list (list byte) * Z;
  strdup_ok : nat → bool
}.

(** What the caller and the callee share: the buffer, [*result], [*errnop],
    [*h_errnop], the heap, the calls made so far, and the footprint
    (offset, length) of every write into the buffer. *)
Record machine := {
  buffer : list memval;
  result : hostent;
  errnop : Z;
  h_errnop : Z;
  blocks : heap;
  trace : list event;
  stores : list (Z * Z)
}.

(** How a call ends: it returns, [assert] aborts the process, or it reads
    memory that holds no value of the type read. *)
Inductive outcome (A : Type) :=
  | Ret (a : A)
  | AssertFail
  | Undefined.
Arguments Ret {A} a.
Arguments AssertFail {A}.
Arguments Undefined {A}.

(** The entry points, for statements about all of them. *)
Inductive request :=
  | GetHostByName2 (name : list byte) (af : Z)
  | GetHostByName (name : list byte)
  | GetHostByAddr (addr : list byte) (len : Z) (af : Z).

(** *** Assignments to the shared state *)

Definition set_errors (e h : Z) (m : machine) : machine :=
  {| buffer := buffer m; result := result m; errnop := e; h_errnop := h;
     blocks := blocks m; trace := trace m; stores := stores m |}.

Definition set_result (r : hostent) (m : machine) : machine :=
  {| buffer := buffer m; result := r; errnop := errnop m;
     h_errnop := h_errnop m; blocks := blocks m; trace := trace m;
     stores := stores m |}.

Definition set_blocks (h : heap) (m : machine) : machine :=
  {| buffer := buffer m; result := result m; errnop := errnop m;
     h_errnop := h_errnop m; blocks := h; trace := trace m;
     stores := stores m |}.

Definition log (e : event) (m : machine) : machine :=
  {| buffer := buffer m; result := result m; errnop := errnop m;
     h_errnop := h_errnop m; blocks := blocks m; trace := trace m ++ [e];
     stores := stores m |}.

Definition store (off : Z) (vs : list memval) (m : machine) : machine :=
  {| buffer := mem_store (buffer m) off vs; result := result m;
     errnop := errnop m; h_errnop := h_errnop m; blocks := blocks m;
     trace := trace m;
     stores := stores m ++ [(off, Z.of_nat (length vs))] |}.

Definition set_h_name (p : ptr) (m : machine) : machine :=
  let r := result m in
  set_result {| h_name := p; h_aliases := h_aliases r;
                h_addrtype := h_addrtype r; h_length := h_length r;
                h_addr_list := h_addr_list r |} m.

Definition set_h_aliases (p : ptr) (m : machine) : machine :=
  let r := result m in
  set_result {| h_name := h_name r; h_aliases := p;
                h_addrtype := h_addrtype r; h_length := h_length r;
                h_addr_list := h_addr_list r |} m.

Definition set_h_addrtype (v : Z) (m : machine) : machine :=
  let r := result m in
  set_result {| h_name := h_name r; h_aliases := h_aliases r;
                h_addrtype := v; h_length := h_length r;
                h_addr_list := h_addr_list r |} m.

Definition set_h_length (v : Z) (m : machine) : machine :=
  let r := result m in
  set_result {| h_name := h_name r; h_aliases := h_aliases r;
                h_addrtype := h_addrtype r; h_length := v;
                h_addr_list := h_addr_list r |} m.

Definition set_h_addr_list (p : ptr) (m : machine) : machine :=
  let r := result m in
  set_result {| h_name := h_name r; h_aliases := h_aliases r;
                h_addrtype := h_addrtype r; h_length := h_length r;
                h_addr_list := p |} m.

(** [strcpy(buffer + off, s)] and [memcpy(buffer + off, src, n)]; the
    caller of [memcpy] is taken to pass a source of at least [n] bytes. *)
Definition strcpy (off : Z) (s : list byte) (m : machine) : machine :=
  store off (string_bytes s) m.

Definition memcpy (off : Z) (src : list memval) (n : Z) (m : machine)
  : machine :=
  store off (take (Z.to_nat n) src) m.

(** [finish:] closes the descriptor if there is one and returns. *)
Definition finish (fd : Z) (status : nss_status) (m : machine)
  : nss_status * machine :=
  (status, if 0 <=? fd then log (EvClose fd) m else m).

(** ** The code, for one ABI, one build and one collaborator *)

Section Nss.

(** [PS] is the size of a pointer ([char *], [void *]) and of a [size_t];
    [int] has 32 bits. *)
Context (PS : Z) (bld : build) (env : collaborator).

Definition SIZE_MAX : Z := 2 ^ (8 * PS) - 1.
Definition INT_MAX : Z := 2 ^ 31 - 1.

(** Arithmetic in [size_t] wraps around; so does, with gcc, the conversion
    of a [size_t] to [int]. *)
Definition size_t (x : Z) : Z := x mod 2 ^ (8 * PS).
Definition int (x : Z) : Z := (x + 2 ^ 31) mod 2 ^ 32 - 2 ^ 31.

Definition encode_ptr (p : ptr) : list memval :=
  MPtr p <$> seq 0 (Z.to_nat PS).

Definition decode_ptr (vs : list memval) : option ptr :=
  match vs with
  | MPtr p _ :: _ => if decide (vs = encode_ptr p) then Some p else None
  | _ => None
  end.

Definition load_ptr (m : list memval) (off : Z) : option ptr :=
  decode_ptr (mem_load m off PS).

(** *** The accumulator *)

(** [sizeof(u.data)]: the largest of the three arrays of the union. *)
Definition sizeof_data : Z :=
  Z.max (MAX_ENTRIES * sizeof_ipv6_address_t) (MAX_ENTRIES * PS).

(** [struct userdata u;] followed by [u.count = 0; u.data_len = 0;]. *)
Definition userdata_init : userdata :=
  {| count := 0; data_len := 0;
     data := replicate (Z.to_nat sizeof_data) Undef |}.

Definition ipv4_callback (ipv4 : ipv4_address_t) (u : userdata) : userdata :=
  if MAX_ENTRIES <=? count u then u
  else
    {| count := count u + 1;
       data_len := int (size_t (data_len u + sizeof_ipv4_address_t));
       data := mem_store (data u) (sizeof_ipv4_address_t * count u)
                 (MByte <$> vec_to_list ipv4) |}.

Definition ipv6_callback (ipv6 : ipv6_address_t) (u : userdata) : userdata :=
  if MAX_ENTRIES <=? count u then u
  else
    {| count := count u + 1;
       data_len := int (size_t (data_len u + sizeof_ipv6_address_t));
       data := mem_store (data u) (sizeof_ipv6_address_t * count u)
                 (MByte <$> vec_to_list ipv6) |}.

(** [strdup]: a fresh block holding a copy of [s], or [NULL]. *)
Definition strdup (s : list byte) (h : heap) : ptr * heap :=
  if strdup_ok env (length h) then (HeapPtr (length h), h ++ [Some s])
  else (NULL, h ++ [None]).

Definition name_callback (name : list byte) (uh : userdata * heap)
  : userdata * heap :=
  let '(u, h) := uh in
  if MAX_ENTRIES <=? count u then (u, h)
  else
    let '(p, h) := strdup name h in
    ({| count := count u + 1;
        data_len := int (size_t (data_len u + (strlen name + 1)));
        data := mem_store (data u) (PS * count u) (encode_ptr p) |}, h).

(** *** The collaborator's primitives, as the entry points call them *)

Definition mdns_open_socket (m : machine) : Z * Z * machine :=
  let '(fd, errno) := open_socket env in
  (fd, errno, log (EvOpen fd) m).

(** An answer goes to the callback of its family, when the caller passed
    one. *)
Definition deliver
    (ipv4_func : option (ipv4_address_t → userdata → userdata))
    (ipv6_func : option (ipv6_address_t → userdata → userdata))
    (u : userdata) (a : answer) : userdata :=
  match a with
  | A4 x => match ipv4_func with Some f => f x u | None => u end
  | A6 x => match ipv6_func with Some f => f x u | None => u end
  end.

Definition mdns_query_name (fd : Z) (name : list byte)
    (ipv4_func : option (ipv4_address_t → userdata → userdata))
    (ipv6_func : option (ipv6_address_t → userdata → userdata))
    (u : userdata) (m : machine) : Z * userdata * machine :=
  let '(answers, r) :=
    query_name env fd name (bool_decide (is_Some ipv4_func))
      (bool_decide (is_Some ipv6_func)) in
  (r, foldl (deliver ipv4_func ipv6_func) u answers,
   log (EvQueryName fd name r) m).

Definition deliver_name
    (name_func : list byte → userdata * heap → userdata * heap)
    (uh : userdata * heap) (name : list byte) : userdata * heap :=
  name_func name uh.

Definition mdns_query_ipv4 (fd : Z) (addr : list byte)
    (name_func : list byte → userdata * heap → userdata * heap)
    (u : userdata) (m : machine) : Z * userdata * machine :=
  let '(names, r) := query_ipv4 env fd addr in
  let '(u, h) := foldl (deliver_name name_func) (u, blocks m) names in
  (r, u, log (EvQueryIpv4 fd addr r) (set_blocks h m)).

Definition mdns_query_ipv6 (fd : Z) (addr : list byte)
    (name_func : list byte → userdata * heap → userdata * heap)
    (u : userdata) (m : machine) : Z * userdata * machine :=
  let '(names, r) := query_ipv6 env fd addr in
  let '(u, h) := foldl (deliver_name name_func) (u, blocks m) names in
  (r, u, log (EvQueryIpv6 fd addr r) (set_blocks h m)).

(** *** The entry points *)

(** The test on [af] that the preprocessor selects. *)
Definition family_unsupported (af : Z) : bool :=
  if NSS_IPV4_ONLY bld then negb (af =? AF_INET)
  else if NSS_IPV6_ONLY bld then negb (af =? AF_INET6)
  else negb (af =? AF_INET) && negb (af =? AF_INET6).

Definition address_length_of (af : Z) : Z :=
  if af =? AF_INET then sizeof_ipv4_address_t else sizeof_ipv6_address_t.

(** [for (i = 0; i < u.count; i++)
      ((char** ) (buffer+index))[i] = buffer+astart+address_length*i;]
    with [n] iterations left; returns the final [i]. *)
Fixpoint address_array (n : nat) (i index astart address_length : Z)
    (m : machine) : Z * machine :=
  match n with
  | O => (i, m)
  | S n' =>
      address_array n' (i + 1) index astart address_length
        (store (index + PS * i)
           (encode_ptr (BufPtr (astart + size_t (address_length * i)))) m)
  end.

Definition _nss_mdns_gethostbyname2_r (name : list byte) (af : Z)
    (buflen : Z) (m : machine) : nss_status * machine :=
  let status := NSS_STATUS_UNAVAIL in
  let fd := -1 in
  if family_unsupported af then
    finish fd status (set_errors EINVAL NO_RECOVERY m)
  else
    let address_length := address_length_of af in
    if buflen <? size_t (PS + strlen name + 1) then
      finish fd NSS_STATUS_TRYAGAIN (set_errors ERANGE NO_RECOVERY m)
    else
      let '(fd, errno, m) := mdns_open_socket m in
      if fd <? 0 then
        finish fd status (set_errors errno NO_RECOVERY m)
      else
        let u := userdata_init in
        let '(r, u, m) :=
          mdns_query_name fd name
            (if af =? AF_INET then Some ipv4_callback else None)
            (if af =? AF_INET6 then Some ipv6_callback else None) u m in
        if r <? 0 then
          finish fd status (set_errors ETIMEDOUT HOST_NOT_FOUND m)
        else
          (* Alias names *)
          let m := store 0 (encode_ptr NULL) m in
          let m := set_h_aliases (BufPtr 0) m in
          let index := PS in
          (* Official name *)
          let m := strcpy index name m in
          let m := set_h_name (BufPtr index) m in
          let index := size_t (index + (strlen name + 1)) in
          let m := set_h_addrtype af m in
          let m := set_h_length (int address_length) m in
          (* Check if there's enough space for the addresses *)
          if buflen <? size_t (index + data_len u + PS * (count u + 1)) then
            finish fd NSS_STATUS_TRYAGAIN (set_errors ERANGE NO_RECOVERY m)
          else
            (* Addresses *)
            let astart := index in
            let l := size_t (count u * address_length) in
            let m := memcpy astart (data u) l m in
            let index := size_t (index + l) in
            (* Address array *)
            let '(i, m) :=
              address_array (Z.to_nat (count u)) 0 index astart
                address_length m in
            let m := store (index + PS * i) (encode_ptr NULL) m in
            let m := set_h_addr_list (BufPtr index) m in
            finish fd NSS_STATUS_SUCCESS m.

Definition _nss_mdns_gethostbyname_r (name : list byte) (buflen : Z)
    (m : machine) : nss_status * machine :=
  _nss_mdns_gethostbyname2_r name
    (if NSS_IPV6_ONLY bld then AF_INET6 else AF_INET) buflen m.

Definition _nss_mdns_gethostbyaddr_r (addr : list byte) (len af : Z)
    (buflen : Z) (m : machine) : outcome (nss_status * machine) :=
  let m := set_errors EINVAL NO_RECOVERY m in
  let status := NSS_STATUS_UNAVAIL in
  let fd := -1 in
  let u := userdata_init in
  let address_length := address_length_of af in
  if negb (len =? int address_length) || family_unsupported af then
    Ret (finish fd status (set_errors EINVAL NO_RECOVERY m))
  else if buflen <? size_t (PS + address_length) then
    Ret (finish fd NSS_STATUS_TRYAGAIN (set_errors ERANGE NO_RECOVERY m))
  else
    let '(fd, errno, m) := mdns_open_socket m in
    if fd <? 0 then
      Ret (finish fd status (set_errors errno NO_RECOVERY m))
    else
      let '(r, u, m) :=
        if af =? AF_INET then mdns_query_ipv4 fd addr name_callback u m
        else mdns_query_ipv6 fd addr name_callback u m in
      if r <? 0 then
        Ret (finish fd status (set_errors ETIMEDOUT HOST_NOT_FOUND m))
      else
        (* Alias names *)
        let m := store 0 (encode_ptr NULL) m in
        let m := set_h_aliases (BufPtr 0) m in
        let index := PS in
        (* assert(u.count > 0 && u.data.name[0]); *)
        if negb (0 <? count u) then AssertFail
        else
          match load_ptr (data u) 0 with
          | None => Undefined
          | Some NULL => AssertFail
          | Some name0 =>
              match heap_string (blocks m) name0 with
              | None => Undefined
              | Some s =>
                  if buflen <?
                     size_t (strlen s + 1 + PS + address_length + PS * 2)
                  then
                    Ret (finish fd NSS_STATUS_TRYAGAIN
                           (set_errors ERANGE NO_RECOVERY m))
                  else
                    (* Official name *)
                    let m := strcpy index s m in
                    let m := set_h_name (BufPtr index) m in
                    let index := size_t (index + (strlen s + 1)) in
                    let m := set_h_addrtype af m in
                    let m := set_h_length (int address_length) m in
                    (* Address *)
                    let astart := index in
                    let m := memcpy astart (MByte <$> addr) address_length m in
                    let index := size_t (index + address_length) in
                    (* Address array *)
                    let m := store index (encode_ptr (BufPtr astart)) m in
                    let m := store (index + PS * 1) (encode_ptr NULL) m in
                    let m := set_h_addr_list (BufPtr index) m in
                    Ret (finish fd NSS_STATUS_SUCCESS m)
              end
          end.

Definition call (rq : request) (buflen : Z) (m : machine)
  : outcome (nss_status * machine) :=
  match rq with
  | GetHostByName2 name af => Ret (_nss_mdns_gethostbyname2_r name af buflen m)
  | GetHostByName name => Ret (_nss_mdns_gethostbyname_r name buflen m)
  | GetHostByAddr addr len af => _nss_mdns_gethostbyaddr_r addr len af buflen m
  end.

End Nss.

(** ** Vocabulary of the statements *)

(** One offer to the accumulator, of any of the three kinds, and the number
    of bytes it adds to [data_len]. *)
Inductive entry :=
  | E4 (a : ipv4_address_t)
  | E6 (a : ipv6_address_t)
  | EName (s : list byte).

Definition entry_size (e : entry) : Z :=
  match e with
  | E4 _ => sizeof_ipv4_address_t
  | E6 _ => sizeof_ipv6_address_t
  | EName s => strlen s + 1
  end.

Definition total_size (es : list entry) : Z :=
  foldr Z.add 0 (entry_size <$> es).

Definition offer (PS : Z) (env : collaborator) (uh : userdata * heap)
    (e : entry) : userdata * heap :=
  match e with
  | E4 a => (ipv4_callback PS a uh.1, uh.2)
  | E6 a => (ipv6_callback PS a uh.1, uh.2)
  | EName s => name_callback PS env s uh
  end.

(** The address that an answer contributes to a query for family [af]. *)
Definition address_of (af : Z) (a : answer) : option (list byte) :=
  match a with
  | A4 x => if af =? AF_INET then Some (vec_to_list x) else None
  | A6 x => if af =? AF_INET6 then Some (vec_to_list x) else None
  end.

(** The addresses a forward lookup keeps, in arrival order. *)
Definition accumulated (af : Z) (answers : list answer) : list (list byte) :=
  take (Z.to_nat MAX_ENTRIES) (omap (address_of af) answers).

(** The accumulator as [mdns_query_name] leaves it. *)
Definition forward_accumulator (PS : Z) (af : Z) (answers : list answer)
  : userdata :=
  foldl
    (deliver (if af =? AF_INET then Some (ipv4_callback PS) else None)
             (if af =? AF_INET6 then Some (ipv6_callback PS) else None))
    (userdata_init PS) answers.

(** The sizes of section 4.2 of the spec. *)
Definition forward_required (PS L N W : Z) : Z :=
  PS + L + 1 + N * W + PS * (N + 1).

Definition reverse_required (PS L W : Z) : Z :=
  PS + L + 1 + W + PS * 2.

(** [p] points into [[buffer, buffer + buflen)]. *)
Definition in_buffer (buflen : Z) (p : ptr) : Prop :=
  match p with
  | BufPtr off => 0 ≤ off < buflen
  | _ => False
  end.

(** The accumulator holds [kept]: the invariant of the address callbacks,
    for addresses of width [W]. *)
Definition holds (PS W : Z) (u : userdata) (kept : list (list byte)) : Prop :=
  count u = Z.of_nat (length kept) ∧
  (length kept ≤ Z.to_nat MAX_ENTRIES)%nat ∧
  data_len u = W * count u ∧
  Z.of_nat (length (data u)) = sizeof_data PS ∧
  take (Z.to_nat (W * count u)) (data u) = MByte <$> concat kept ∧
  Forall (λ a, Z.of_nat (length a) = W) kept.

(** The state of a forward lookup when it reaches the second capacity
    check: the alias terminator and the name are written. *)
Definition forward_prefix (PS : Z) (name : list byte) (af : Z) (m : machine)
  : machine :=
  set_h_length (address_length_of af)
    (set_h_addrtype af
       (set_h_name (BufPtr PS)
          (strcpy PS name
             (set_h_aliases (BufPtr 0)
                (store 0 (encode_ptr PS NULL) m))))).

(** The state of a forward lookup that passed the second check, before
    [finish:], with the offsets as numbers. *)
Definition forward_record (PS : Z) (name : list byte) (af : Z) (u : userdata)
    (m : machine) : machine :=
  let W := address_length_of af in
  let astart := PS + strlen name + 1 in
  let index := astart + count u * W in
  let m := memcpy astart (data u) (count u * W) (forward_prefix PS name af m) in
  let m := (address_array PS (Z.to_nat (count u)) 0 index astart W m).2 in
  set_h_addr_list (BufPtr index)
    (store (index + PS * count u) (encode_ptr PS NULL) m).

(** A write that stays inside [[lo, hi)]. *)
Definition within (lo hi : Z) (w : Z * Z) : Prop :=
  lo ≤ w.1 ∧ 0 ≤ w.2 ∧ w.1 + w.2 ≤ hi.

(** The accumulator and the heap as a reverse query leaves them. *)
Definition reverse_accumulator (PS : Z) (env : collaborator)
    (names : list (list byte)) (h : heap) : userdata * heap :=
  foldl (deliver_name (name_callback PS env)) (userdata_init PS, h) names.

(** The answer the collaborator gives to the reverse query for [af]. *)
Definition reverse_answer (env : collaborator) (fd : Z) (addr : list byte)
    (af : Z) : list (list byte) * Z :=
  if af =? AF_INET then query_ipv4 env fd addr else query_ipv6 env fd addr.

Definition reverse_event (fd : Z) (addr : list byte) (af r : Z) : event :=
  if af =? AF_INET then EvQueryIpv4 fd addr r else EvQueryIpv6 fd addr r.

(** The state of a reverse lookup at its [assert]: the alias terminator is
    written. *)
Definition reverse_prefix (PS : Z) (m : machine) : machine :=
  set_h_aliases (BufPtr 0) (store 0 (encode_ptr PS NULL) m).

(** The state of a reverse lookup that passed the second check, before
    [finish:], with the offsets as numbers; [s] is the first name found. *)
Definition reverse_record (PS : Z) (s addr : list byte) (af : Z) (m : machine)
  : machine :=
  let W := address_length_of af in
  let astart := PS + strlen s + 1 in
  let index := astart + W in
  set_h_addr_list (BufPtr index)
    (store (index + PS * 1) (encode_ptr PS NULL)
       (store index (encode_ptr PS (BufPtr astart))
          (memcpy astart (MByte <$> addr) W
             (set_h_length W
                (set_h_addrtype af
                   (set_h_name (BufPtr PS)
                      (strcpy PS s (reverse_prefix PS m)))))))).

(** The family that [_nss_mdns_gethostbyname_r] is said to ask for:
    [AF_INET6] under [NSS_IPV6_ONLY], [AF_INET] otherwise. *)
Definition default_family (bld : build) : Z :=
  if NSS_IPV6_ONLY bld then AF_INET6 else AF_INET.

(** The request names a family that the build does not support or, for a
    reverse lookup, an address whose length is not the width of its
    family. *)
Definition invalid_argument (bld : build) (rq : request) : bool :=
  match rq with
  | GetHostByName2 _ af => family_unsupported bld af
  | GetHostByName _ => family_unsupported bld (default_family bld)
  | GetHostByAddr _ len af =>
      negb (len =? address_length_of af) || family_unsupported bld af
  end.

(** The descriptors that a sequence of calls opened (the failed attempts
    left out) and those it closed, in order. *)
Definition opened (evs : list event) : list Z :=
  omap (λ e, match e with
             | EvOpen fd => if 0 <=? fd then Some fd else None
             | _ => None
             end) evs.

Definition closed (evs : list event) : list Z :=
  omap (λ e, match e with EvClose fd => Some fd | _ => None end) evs.

(** The bytes at the start of the buffer that a call writes before its
    second capacity check: the alias terminator and, in a forward lookup,
    the name. *)
Definition prefix_size (PS : Z) (rq : request) : Z :=
  match rq with
  | GetHostByName2 name _ | GetHostByName name => PS + (strlen name + 1)
  | GetHostByAddr _ _ _ => PS
  end.

(** The size, by section 4.2 of the spec, of the record that answers the
    request with what the collaborator finds. *)
Definition forward_size (PS : Z) (env : collaborator) (name : list byte)
    (af : Z) : Z :=
  let fd := (open_socket env).1 in
  let answers :=
    (query_name env fd name (af =? AF_INET) (af =? AF_INET6)).1 in
  forward_required PS (strlen name)
    (Z.of_nat (length (accumulated af answers))) (address_length_of af).

Definition required_size (PS : Z) (bld : build) (env : collaborator)
    (rq : request) : Z :=
  match rq with
  | GetHostByName2 name af => forward_size PS env name af
  | GetHostByName name => forward_size PS env name (default_family bld)
  | GetHostByAddr addr _ af =>
      let fd := (open_socket env).1 in
      match head (reverse_answer env fd addr af).1 with
      | Some s => reverse_required PS (strlen s) (address_length_of af)
      | None => 0
      end
  end.

Definition is_query (e : event) : Prop :=
  match e with
  | EvQueryName _ _ _ | EvQueryIpv4 _ _ _ | EvQueryIpv6 _ _ _ => True
  | _ => False
  end.

(** Every descriptor that was opened is closed, once and as the last
    thing done, and nothing else is closed; at most one is opened. *)
Definition released_once (evs : list event) : Prop :=
  closed evs = opened evs ∧
  (length (opened evs) ≤ 1)%nat ∧
  ∀ fd, fd ∈ opened evs → last evs = Some (EvClose fd).

(** After a call that took the caller's state from [m] to [m']: the
    pointers of [*result] point into the buffer; the alias array is a NULL
    entry; the address array has [n] entries that point into the buffer,
    then a NULL entry; and every write of the call lies in the buffer. *)
Definition record_inside (PS buflen : Z) (m m' : machine) : Prop :=
  in_buffer buflen (h_name (result m')) ∧
  in_buffer buflen (h_aliases (result m')) ∧
  in_buffer buflen (h_addr_list (result m')) ∧
  (∃ alias_off : Z,
     h_aliases (result m') = BufPtr alias_off ∧
     load_ptr PS (buffer m') alias_off = Some NULL) ∧
  (∃ list_off n : Z,
     h_addr_list (result m') = BufPtr list_off ∧
     0 ≤ n ∧
     (∀ i : Z, 0 ≤ i < n →
        ∃ p : ptr,
          load_ptr PS (buffer m') (list_off + PS * i) = Some p ∧
          in_buffer buflen p) ∧
     load_ptr PS (buffer m') (list_off + PS * n) = Some NULL) ∧
  ∃ new : list (Z * Z),
    stores m' = stores m ++ new ∧ Forall (within 0 buflen) new.

(** What the first capacity check of an entry point compares [buflen]
    with. *)
Definition coarse_size (PS : Z) (bld : build) (rq : request) : Z :=
  match rq with
  | GetHostByName2 name _ | GetHostByName name => PS + strlen name + 1
  | GetHostByAddr _ _ af => PS + address_length_of af
  end.

(** The family an entry point works with. *)
Definition family_of (bld : build) (rq : request) : Z :=
  match rq with
  | GetHostByName2 _ af | GetHostByAddr _ _ af => af
  | GetHostByName _ => if NSS_IPV6_ONLY bld then AF_INET6 else AF_INET
  end.

(** The heap blocks that the [strdup] calls of [name_callback] add to the
    heap [h] for the names [names]: a copy, or nothing where [strdup]
    failed. *)
Definition copies (env : collaborator) (h : heap) (names : list (list byte))
  : heap :=
  imap (λ i s, if strdup_ok env (length h + i) then Some s else None) names.

(** What a call that fails its second capacity check has written, from the
    state [m] before the call to the state [m'] it returns in: the alias
    terminator and [h_aliases] and, in a forward lookup, the copy of the
    name, [h_name], [h_addrtype] and [h_length]; a reverse lookup has not
    yet touched the latter three. *)
Definition prefix_written (PS : Z) (bld : build) (rq : request)
    (m m' : machine) : Prop :=
  h_aliases (result m') = BufPtr 0 ∧
  match rq with
  | GetHostByName2 name _ | GetHostByName name =>
      stores m' = stores m ++ [(0, PS); (PS, strlen name + 1)] ∧
      h_name (result m') = BufPtr PS ∧
      h_addrtype (result m') = family_of bld rq ∧
      h_length (result m') = address_length_of (family_of bld rq)
  | GetHostByAddr _ _ _ =>
      stores m' = stores m ++ [(0, PS)] ∧
      h_name (result m') = h_name (result m) ∧
      h_addrtype (result m') = h_addrtype (result m) ∧
      h_length (result m') = h_length (result m)
  end.

(** The same, read back from the buffer: the NULL entry of the alias array
    at offset 0 and, in a forward lookup, the name with its NUL behind
    it. *)
Definition prefix_readable (PS : Z) (rq : request) (m' : machine) : Prop :=
  load_ptr PS (buffer m') 0 = Some NULL ∧
  match rq with
  | GetHostByName2 name _ | GetHostByName name =>
      mem_load (buffer m') PS (strlen name + 1) = string_bytes name
  | GetHostByAddr _ _ _ => True
  end.

(** ** A concrete run: the scenarios of section 8 of the spec

    [foo.local] has the addresses 10.0.0.5 and 10.0.0.6, and 192.168.1.1 is
    [printer.local]; pointers have 8 bytes and the build supports both
    families. *)

Definition ex_name : list byte :=
  ["f"; "o"; "o"; "."; "l"; "o"; "c"; "a"; "l"]%byte.

Definition ex_printer : list byte :=
  ["p"; "r"; "i"; "n"; "t"; "e"; "r"; "."; "l"; "o"; "c"; "a"; "l"]%byte.

Definition ex_addr1 : ipv4_address_t := [# x0a; x00; x00; x05].
Definition ex_addr2 : ipv4_address_t := [# x0a; x00; x00; x06].
Definition ex_peer : list byte := [xc0; xa8; x01; x01].

Definition ex_build : build :=
  {| NSS_IPV4_ONLY := false; NSS_IPV6_ONLY := false |}.

Definition ex_env : collaborator :=
  {| open_socket := (3, 0);
     query_name := λ _ _ _ _, ([A4 ex_addr1; A4 ex_addr2], 0);
     query_ipv4 := λ _ _, ([ex_printer], 0);
     query_ipv6 := λ _ _, ([], 0);
     strdup_ok := λ _, true |}.

(** The same collaborator when nothing answers before the timeout. *)
Definition ex_env_timeout : collaborator :=
  {| open_socket := (3, 0);
     query_name := λ _ _ _ _, ([], -1);
     query_ipv4 := λ _ _, ([], -1);
     query_ipv6 := λ _ _, ([], -1);
     strdup_ok := λ _, true |}.

(** The same collaborator when the reverse query succeeds without finding
    a name. *)
Definition ex_env_silent : collaborator :=
  {| open_socket := (3, 0);
     query_name := λ _ _ _ _, ([], 0);
     query_ipv4 := λ _ _, ([], 0);
     query_ipv6 := λ _ _, ([], 0);
     strdup_ok := λ _, true |}.

(** The same collaborator when no descriptor is left: the open fails with
    [EMFILE]. *)
Definition ex_env_closed : collaborator :=
  {| open_socket := (-1, 24);
     query_name := λ _ _ _ _, ([], -1);
     query_ipv4 := λ _ _, ([], -1);
     query_ipv6 := λ _ _, ([], -1);
     strdup_ok := λ _, true |}.

(** The IPv6 loopback address, for answers of the other family. *)
Definition ex_addr6 : ipv6_address_t :=
  [# x00; x00; x00; x00; x00; x00; x00; x00;
     x00; x00; x00; x00; x00; x00; x00; x01].

(** The state in which a call returned, [d] if it did not return. *)
Definition machine_of (o : outcome (nss_status * machine)) (d : machine)
  : machine :=
  match o with
  | Ret (_, m') => m'
  | _ => d
  end.

(** The caller's side before the call: a buffer of [n] bytes that holds
    nothing yet, and a cleared [struct hostent]. *)
Definition ex_machine (n : nat) : machine :=
  {| buffer := replicate n Undef;
     result := {| h_name := NULL; h_aliases := NULL; h_addrtype := 0;
                  h_length := 0; h_addr_list := NULL |};
     errnop := 0; h_errnop := 0; blocks := []; trace := []; stores := [] |}.

(** ** Reading back what was stored *)

Section Memory.

Context {A : Type}.
Implicit Types (l k : list A) (i j n : nat).

Lemma inserts_read_same l k i :
  (i + length k ≤ length l)%nat →
  take (length k) (drop i (list_inserts i k l)) = k.
Proof.
  intros Hle. apply list_eq. intros x.
  rewrite lookup_take, lookup_drop.
  destruct (decide (x < length k)%nat) as [Hx|Hx].
  - rewrite list_lookup_inserts by lia. f_equal. lia.
  - symmetry. apply lookup_ge_None. lia.
Qed.

Lemma inserts_read_other l k i j n :
  (j + n ≤ i ∨ i + length k ≤ j)%nat →
  take n (drop j (list_inserts i k l)) = take n (drop j l).
Proof.
  intros Hd. apply list_eq. intros x.
  rewrite !lookup_take, !lookup_drop.
  destruct (decide (x < n)%nat) as [Hx|Hx]; [|done].
  destruct Hd as [Hd|Hd].
  - apply list_lookup_inserts_lt. lia.
  - apply list_lookup_inserts_ge. lia.
Qed.

Lemma inserts_take_snoc l k i :
  (i + length k ≤ length l)%nat →
  take (i + length k) (list_inserts i k l) = take i l ++ k.
Proof.
  intros Hle. apply list_eq. intros x.
  rewrite lookup_take.
  destruct (decide (x < i + length k)%nat) as [Hx|Hx].
  - destruct (decide (x < i)%nat) as [Hi|Hi].
    + rewrite list_lookup_inserts_lt by done.
      rewrite lookup_app_l by (rewrite length_take; lia).
      by rewrite lookup_take_lt.
    + rewrite list_lookup_inserts by lia.
      rewrite lookup_app_r by (rewrite length_take; lia).
      rewrite length_take. f_equal. lia.
  - symmetry. apply lookup_ge_None.
    rewrite length_app, length_take. lia.
Qed.

Lemma inserts_drop_after l k i j :
  (i + length k ≤ j)%nat →
  drop j (list_inserts i k l) = drop j l.
Proof.
  intros Hle. apply list_eq. intros x. rewrite !lookup_drop.
  apply list_lookup_inserts_ge. lia.
Qed.

End Memory.

Lemma cstring_at_string_bytes (s : list byte) (rest : list memval) :
  cstring s → cstring_at (string_bytes s ++ rest) = Some s.
Proof.
  unfold string_bytes. rewrite <- app_assoc.
  induction 1 as [|b s Hb _ IH].
  - done.
  - rewrite fmap_cons. simpl in *. rewrite decide_False by done.
    by rewrite IH.
Qed.

Lemma length_string_bytes (s : list byte) :
  Z.of_nat (length (string_bytes s)) = strlen s + 1.
Proof.
  unfold string_bytes, strlen. rewrite length_app, length_fmap. simpl. lia.
Qed.

(** A string that was stored whole is read back. *)
Lemma load_cstring_stored (m : list memval) (off : Z) (s : list byte) :
  cstring s →
  mem_load m off (strlen s + 1) = string_bytes s →
  load_cstring m off = Some s.
Proof.
  unfold mem_load, load_cstring. intros Hs Hload.
  rewrite <- (take_drop (Z.to_nat (strlen s + 1)) (drop (Z.to_nat off) m)).
  rewrite Hload. by apply cstring_at_string_bytes.
Qed.

Section Arithmetic.

Context (PS : Z).

Lemma size_t_small (x : Z) : 0 ≤ x ≤ SIZE_MAX PS → size_t PS x = x.
Proof. unfold size_t, SIZE_MAX. intros. apply Z.mod_small. lia. Qed.

Lemma int_small (x : Z) : 0 ≤ x ≤ INT_MAX → int x = x.
Proof.
  unfold int, INT_MAX. intros.
  rewrite Z.mod_small; lia.
Qed.

Lemma INT_MAX_le_SIZE_MAX : 4 ≤ PS → INT_MAX ≤ SIZE_MAX PS.
Proof.
  unfold INT_MAX, SIZE_MAX. intros.
  assert (2 ^ 31 ≤ 2 ^ (8 * PS)) by (apply Z.pow_le_mono_r; lia). lia.
Qed.

Lemma length_encode_ptr (p : ptr) :
  0 ≤ PS → Z.of_nat (length (encode_ptr PS p)) = PS.
Proof.
  intros. unfold encode_ptr. rewrite length_fmap, length_seq. lia.
Qed.

Lemma decode_encode_ptr (p : ptr) :
  0 < PS → decode_ptr PS (encode_ptr PS p) = Some p.
Proof.
  intros HPS. unfold decode_ptr.
  assert (∃ n, Z.to_nat PS = S n) as [n Hn] by (exists (Z.to_nat PS - 1)%nat; lia).
  unfold encode_ptr at 1. rewrite Hn. simpl.
  rewrite decide_True; [done|].
  unfold encode_ptr. rewrite Hn. done.
Qed.

End Arithmetic.

(** ** The accumulator *)

Section Accumulator.

Context (PS : Z) (env : collaborator).

Lemma entry_size_pos (e : entry) : 0 < entry_size e.
Proof.
  destruct e; unfold entry_size, sizeof_ipv4_address_t,
    sizeof_ipv6_address_t, strlen; lia.
Qed.

Lemma total_size_cons (e : entry) (es : list entry) :
  total_size (e :: es) = entry_size e + total_size es.
Proof. done. Qed.

Lemma total_size_nonneg (es : list entry) : 0 ≤ total_size es.
Proof.
  induction es as [|e es IH]; [done|].
  rewrite total_size_cons. pose proof (entry_size_pos e). lia.
Qed.

(** A full accumulator ignores the offer. *)
Lemma offer_full (uh : userdata * heap) (e : entry) :
  MAX_ENTRIES ≤ count uh.1 → offer PS env uh e = uh.
Proof.
  intros Hfull. destruct uh as [u h]. simpl in Hfull.
  destruct e; unfold offer, ipv4_callback, ipv6_callback, name_callback;
    simpl; rewrite (proj2 (Z.leb_le _ _)) by done; done.
Qed.

(** An accumulator with room counts the entry and adds its size. *)
Lemma offer_room (uh : userdata * heap) (e : entry) :
  4 ≤ PS →
  count uh.1 < MAX_ENTRIES →
  0 ≤ data_len uh.1 →
  data_len uh.1 + entry_size e ≤ INT_MAX →
  count (offer PS env uh e).1 = count uh.1 + 1 ∧
  data_len (offer PS env uh e).1 = data_len uh.1 + entry_size e.
Proof.
  intros HPS Hroom Hnn Hmax. destruct uh as [u h]. simpl in *.
  pose proof (entry_size_pos e) as Hpos.
  pose proof (INT_MAX_le_SIZE_MAX PS HPS) as Hsz.
  assert (int (size_t PS (data_len u + entry_size e))
          = data_len u + entry_size e) as Hlen.
  { rewrite size_t_small by lia. apply int_small. lia. }
  destruct e; unfold offer, ipv4_callback, ipv6_callback, name_callback;
    simpl in *; rewrite (proj2 (Z.leb_gt _ _)) by done.
  - done.
  - done.
  - destruct (strdup env s h). done.
Qed.

Lemma offers_fold (es : list entry) :
  4 ≤ PS →
  ∀ uh : userdata * heap,
    0 ≤ count uh.1 ≤ MAX_ENTRIES →
    0 ≤ data_len uh.1 →
    data_len uh.1
      + total_size (take (Z.to_nat (MAX_ENTRIES - count uh.1)) es) ≤ INT_MAX →
    let uh' := foldl (offer PS env) uh es in
    count uh'.1 = Z.min MAX_ENTRIES (count uh.1 + Z.of_nat (length es)) ∧
    data_len uh'.1 =
      data_len uh.1
        + total_size (take (Z.to_nat (MAX_ENTRIES - count uh.1)) es).
Proof.
  intros HPS. induction es as [|e es IH]; intros uh Hc Hd Hmax; simpl.
  - rewrite take_nil. unfold total_size. simpl. lia.
  - destruct (decide (count uh.1 = MAX_ENTRIES)) as [Hfull|Hroom].
    + rewrite offer_full by lia.
      assert (Z.to_nat (MAX_ENTRIES - count uh.1) = 0%nat) as Hz by lia.
      rewrite Hz in *. rewrite take_0 in *.
      destruct (IH uh) as [IHc IHd]; [lia|lia| |].
      { rewrite Hz, take_0. done. }
      rewrite Hz, take_0 in IHd. split; [lia|done].
    + assert (∃ n, Z.to_nat (MAX_ENTRIES - count uh.1) = S n
                   ∧ Z.to_nat (MAX_ENTRIES - (count uh.1 + 1)) = n)
        as (n & Hn & Hn').
      { exists (Z.to_nat (MAX_ENTRIES - count uh.1) - 1)%nat. lia. }
      rewrite Hn in *. rewrite firstn_cons, total_size_cons in *.
      pose proof (total_size_nonneg (take n es)) as Hts.
      pose proof (entry_size_pos e) as Hpos.
      destruct (offer_room uh e) as [Hc1 Hd1]; [done|lia|lia|lia|].
      destruct (IH (offer PS env uh e)) as [IHc IHd].
      * lia.
      * lia.
      * rewrite Hc1, Hd1, Hn'. lia.
      * rewrite Hc1, Hd1, Hn' in *. split; lia.
Qed.

(** C6. Starting from the empty accumulator, offer [CAP + K] entries of the
    three kinds ([ipv4_callback], [ipv6_callback], [name_callback]), the
    sizes of the first [CAP] summing up to at most [INT_MAX]: once [CAP]
    or more of them were offered, [count] is [CAP] and [data_len] is the sum
    of the sizes of the first [CAP] entries, so that the entries after the
    [CAP]-th change neither. *)
Theorem offers_beyond_cap_are_dropped (h : heap) (es : list entry)
    (K n : nat) :
  4 ≤ PS →
  length es = (Z.to_nat MAX_ENTRIES + K)%nat →
  total_size (take (Z.to_nat MAX_ENTRIES) es) ≤ INT_MAX →
  (Z.to_nat MAX_ENTRIES ≤ n)%nat →
  let u := (foldl (offer PS env) (userdata_init PS, h) (take n es)).1 in
  count u = MAX_ENTRIES ∧
  data_len u = total_size (take (Z.to_nat MAX_ENTRIES) es).
Proof.
  intros HPS Hlen Hmax Hn.
  assert (take (Z.to_nat MAX_ENTRIES) (take n es)
          = take (Z.to_nat MAX_ENTRIES) es) as Htake.
  { rewrite take_take. f_equal. lia. }
  destruct (offers_fold (take n es) HPS (userdata_init PS, h))
    as [Hc Hd]; simpl.
  - unfold MAX_ENTRIES. lia.
  - lia.
  - rewrite Z.sub_0_r, Htake. lia.
  - simpl in Hc, Hd. rewrite Z.sub_0_r, Htake in Hd.
    split; [|lia]. rewrite Hc, length_take. unfold MAX_ENTRIES in *. lia.
Qed.

End Accumulator.

(** ** The accumulator of a forward lookup *)

Section ForwardAccumulator.

Context (PS : Z) (HPS : 4 ≤ PS).

Lemma sizeof_data_ge : 256 ≤ sizeof_data PS ∧ MAX_ENTRIES * PS ≤ sizeof_data PS.
Proof.
  unfold sizeof_data, MAX_ENTRIES, sizeof_ipv6_address_t. lia.
Qed.

Lemma holds_init (W : Z) : holds PS W (userdata_init PS) [].
Proof.
  pose proof sizeof_data_ge.
  unfold holds, userdata_init; simpl.
  rewrite length_replicate, Z.mul_0_r. repeat split; try lia. constructor.
Qed.

(** What either address callback does to an accumulator with room. *)
Lemma holds_append (W : Z) (u : userdata) (kept : list (list byte))
    (bytes : list byte) :
  holds PS W u kept →
  0 < W ≤ 16 →
  Z.of_nat (length bytes) = W →
  count u < MAX_ENTRIES →
  holds PS W
    {| count := count u + 1;
       data_len := int (size_t PS (data_len u + W));
       data := mem_store (data u) (W * count u) (MByte <$> bytes) |}
    (kept ++ [bytes]).
Proof.
  intros (Hc & Hk & Hd & Hlen & Htake & Hall) HW Hb Hroom.
  pose proof sizeof_data_ge as [Hsz _].
  pose proof (INT_MAX_le_SIZE_MAX PS HPS) as Hmax.
  unfold MAX_ENTRIES in *.
  assert (0 ≤ W * count u ∧ W * count u + W ≤ 256) as Hoff by nia.
  unfold holds, MAX_ENTRIES; cbn [count data_len data]. repeat split.
  - rewrite length_app. cbn [length]. lia.
  - rewrite length_app. cbn [length]. lia.
  - rewrite Hd, size_t_small, int_small; unfold INT_MAX in *; lia.
  - unfold mem_store. rewrite length_inserts. done.
  - unfold mem_store.
    replace (Z.to_nat (W * (count u + 1)))
      with (Z.to_nat (W * count u) + length (MByte <$> bytes))%nat
      by (rewrite length_fmap; lia).
    rewrite inserts_take_snoc by (rewrite length_fmap; lia).
    rewrite Htake, concat_app, fmap_app. simpl. by rewrite app_nil_r.
  - apply Forall_app. split; [done|]. by constructor.
Qed.

Lemma supported_family (bld : build) (af : Z) :
  family_unsupported bld af = false → af = AF_INET ∨ af = AF_INET6.
Proof.
  unfold family_unsupported.
  destruct (NSS_IPV4_ONLY bld), (NSS_IPV6_ONLY bld);
    destruct (Z.eqb_spec af AF_INET), (Z.eqb_spec af AF_INET6);
    simpl; intros; auto; discriminate.
Qed.

Lemma address_length_bounds (af : Z) :
  0 < address_length_of af ≤ 16.
Proof.
  unfold address_length_of, sizeof_ipv4_address_t, sizeof_ipv6_address_t.
  destruct (af =? AF_INET); lia.
Qed.

(** One answer: it is appended when it is of the family asked for and there
    is room, and ignored otherwise. *)
Lemma holds_deliver (af : Z) (u : userdata) (kept : list (list byte))
    (a : answer) :
  af = AF_INET ∨ af = AF_INET6 →
  holds PS (address_length_of af) u kept →
  holds PS (address_length_of af)
    (deliver (if af =? AF_INET then Some (ipv4_callback PS) else None)
             (if af =? AF_INET6 then Some (ipv6_callback PS) else None) u a)
    (take (Z.to_nat MAX_ENTRIES) (kept ++ option_list (address_of af a))).
Proof.
  intros Haf Hu.
  assert (take (Z.to_nat MAX_ENTRIES) kept = kept) as Hkept.
  { apply take_ge. destruct Hu as (_ & ? & _). done. }
  assert (∀ bytes, Z.of_nat (length bytes) = address_length_of af →
    holds PS (address_length_of af)
      (if MAX_ENTRIES <=? count u then u
       else {| count := count u + 1;
               data_len :=
                 int (size_t PS (data_len u + address_length_of af));
               data := mem_store (data u) (address_length_of af * count u)
                         (MByte <$> bytes) |})
      (take (Z.to_nat MAX_ENTRIES) (kept ++ [bytes]))) as Hstep.
  { intros bytes Hb. destruct (Z.leb_spec MAX_ENTRIES (count u)) as [Hfull|Hroom].
    - rewrite take_app_le by (destruct Hu as (? & ? & _); lia).
      by rewrite Hkept.
    - rewrite take_ge
        by (rewrite length_app; simpl; destruct Hu as (? & ? & _); lia).
      apply holds_append; auto using address_length_bounds. }
  destruct a as [x|x]; simpl.
  - destruct (Z.eqb_spec af AF_INET) as [->|Hne]; simpl.
    + apply (Hstep (vec_to_list x)). by rewrite length_vec_to_list.
    + by rewrite app_nil_r, Hkept.
  - destruct Haf as [->| ->]; simpl.
    + by rewrite app_nil_r, Hkept.
    + apply (Hstep (vec_to_list x)). by rewrite length_vec_to_list.
Qed.

Lemma address_of_cons (af : Z) (a : answer) (answers : list answer) :
  omap (address_of af) (a :: answers)
  = option_list (address_of af a) ++ omap (address_of af) answers.
Proof. simpl. by destruct (address_of af a). Qed.

Lemma holds_foldl (af : Z) (answers : list answer) :
  af = AF_INET ∨ af = AF_INET6 →
  ∀ (u : userdata) (kept : list (list byte)),
    holds PS (address_length_of af) u kept →
    holds PS (address_length_of af)
      (foldl
         (deliver (if af =? AF_INET then Some (ipv4_callback PS) else None)
                  (if af =? AF_INET6 then Some (ipv6_callback PS) else None))
         u answers)
      (take (Z.to_nat MAX_ENTRIES) (kept ++ omap (address_of af) answers)).
Proof.
  intros Haf. induction answers as [|a answers IH]; intros u kept Hu;
    [|rewrite address_of_cons]; cbn [foldl].
  - rewrite app_nil_r. rewrite take_ge; [done|].
    destruct Hu as (_ & ? & _). done.
  - pose proof (holds_deliver af u kept a Haf Hu) as Hstep.
    apply IH in Hstep. revert Hstep.
    match goal with
    | |- holds _ _ ?u1 ?k1 → holds _ _ ?u2 ?k2 =>
        assert (k1 = k2) as ->; [|done]
    end.
    destruct Hu as (_ & Hk & _).
    destruct (address_of af a) as [bytes|]; cbn [option_list].
    + destruct (decide (length kept < Z.to_nat MAX_ENTRIES)%nat).
      * rewrite (take_ge (kept ++ [bytes]))
          by (rewrite length_app; cbn [length]; lia).
        by rewrite <- app_assoc.
      * rewrite (take_app_le kept [bytes]) by lia.
        rewrite (take_ge kept) by lia.
        rewrite !(take_app_le kept) by lia. done.
    + rewrite app_nil_r. by rewrite (take_ge kept).
Qed.

(** The accumulator after the query: it holds the first [MAX_ENTRIES]
    addresses of the family asked for. *)
Lemma forward_accumulator_holds (af : Z) (answers : list answer) :
  af = AF_INET ∨ af = AF_INET6 →
  holds PS (address_length_of af) (forward_accumulator PS af answers)
    (accumulated af answers).
Proof.
  intros Haf. unfold forward_accumulator, accumulated.
  apply (holds_foldl af answers Haf _ [] (holds_init _)).
Qed.

End ForwardAccumulator.

(** ** Loads and stores of the buffer *)

Section Buffer.

Context (PS : Z) (HPS : 4 ≤ PS).

Lemma length_mem_store (m : list memval) (off : Z) (vs : list memval) :
  length (mem_store m off vs) = length m.
Proof. apply length_inserts. Qed.

Lemma mem_load_store_same (m : list memval) (off : Z) (vs : list memval) :
  0 ≤ off →
  off + Z.of_nat (length vs) ≤ Z.of_nat (length m) →
  mem_load (mem_store m off vs) off (Z.of_nat (length vs)) = vs.
Proof.
  intros Hoff Hle. unfold mem_load, mem_store.
  rewrite Nat2Z.id. apply inserts_read_same. lia.
Qed.

Lemma mem_load_store_other (m : list memval) (off : Z) (vs : list memval)
    (off' n : Z) :
  0 ≤ off → 0 ≤ off' → 0 ≤ n →
  off' + n ≤ off ∨ off + Z.of_nat (length vs) ≤ off' →
  mem_load (mem_store m off vs) off' n = mem_load m off' n.
Proof.
  intros Hoff Hoff' Hn Hd. unfold mem_load, mem_store.
  apply inserts_read_other. lia.
Qed.

Lemma load_ptr_store_same (m : list memval) (off : Z) (p : ptr) :
  0 ≤ off →
  off + PS ≤ Z.of_nat (length m) →
  load_ptr PS (mem_store m off (encode_ptr PS p)) off = Some p.
Proof.
  intros Hoff Hle. unfold load_ptr.
  pose proof (length_encode_ptr PS p ltac:(lia)) as Hlen.
  pose proof (mem_load_store_same m off (encode_ptr PS p) Hoff) as Hsame.
  rewrite Hlen in Hsame. rewrite Hsame by lia.
  apply decode_encode_ptr. lia.
Qed.

Lemma load_ptr_store_other (m : list memval) (off : Z) (vs : list memval)
    (off' : Z) :
  0 ≤ off → 0 ≤ off' →
  off' + PS ≤ off ∨ off + Z.of_nat (length vs) ≤ off' →
  load_ptr PS (mem_store m off vs) off' = load_ptr PS m off'.
Proof.
  intros. unfold load_ptr. by rewrite mem_load_store_other by lia.
Qed.

(** *** The loop that fills the address array *)

Lemma address_array_frame (n : nat) :
  ∀ (i index astart W : Z) (m : machine),
    let im := address_array PS n i index astart W m in
    im.1 = i + Z.of_nat n ∧
    result im.2 = result m ∧
    errnop im.2 = errnop m ∧
    h_errnop im.2 = h_errnop m ∧
    blocks im.2 = blocks m ∧
    trace im.2 = trace m ∧
    length (buffer im.2) = length (buffer m).
Proof.
  induction n as [|n IH]; intros i index astart W m; cbn [address_array].
  - simpl. repeat split. lia.
  - destruct (IH (i + 1) index astart W
      (store (index + PS * i)
         (encode_ptr PS (BufPtr (astart + size_t PS (W * i)))) m))
      as (H1 & H2 & H3 & H4 & H5 & H6 & H7).
    cbv zeta. rewrite H1, H2, H3, H4, H5, H6, H7. simpl.
    rewrite length_mem_store. repeat split. lia.
Qed.

Lemma address_array_stores (n : nat) :
  ∀ (i index astart W : Z) (m : machine),
    0 ≤ i →
    ∃ new,
      stores (address_array PS n i index astart W m).2 = stores m ++ new ∧
      Forall (within (index + PS * i) (index + PS * (i + Z.of_nat n))) new.
Proof.
  induction n as [|n IH]; intros i index astart W m Hi; cbn [address_array].
  - exists []. simpl. by rewrite app_nil_r.
  - destruct (IH (i + 1) index astart W
      (store (index + PS * i)
         (encode_ptr PS (BufPtr (astart + size_t PS (W * i)))) m))
      as (new & Hnew & Hall); [lia|].
    exists ((index + PS * i, PS) :: new). split.
    + rewrite Hnew. simpl. rewrite length_encode_ptr by lia.
      by rewrite <- app_assoc.
    + constructor.
      * unfold within; simpl. nia.
      * eapply Forall_impl; [exact Hall|].
        intros [o l]; unfold within; simpl. nia.
Qed.

Lemma address_array_load_other (n : nat) :
  ∀ (i index astart W : Z) (m : machine) (off k : Z),
    0 ≤ i → 0 ≤ index → 0 ≤ off → 0 ≤ k →
    off + k ≤ index + PS * i ∨ index + PS * (i + Z.of_nat n) ≤ off →
    mem_load (buffer (address_array PS n i index astart W m).2) off k
    = mem_load (buffer m) off k.
Proof.
  induction n as [|n IH]; intros i index astart W m off k Hi Hx Hoff Hk Hd;
    cbn [address_array]; [done|].
  rewrite IH by nia. simpl.
  apply mem_load_store_other; try nia.
  rewrite length_encode_ptr by lia. nia.
Qed.

Lemma address_array_load_ptr (n : nat) :
  ∀ (i index astart W : Z) (m : machine) (j : Z),
    0 ≤ i → 0 ≤ index →
    index + PS * (i + Z.of_nat n) ≤ Z.of_nat (length (buffer m)) →
    i ≤ j < i + Z.of_nat n →
    load_ptr PS (buffer (address_array PS n i index astart W m).2)
      (index + PS * j)
    = Some (BufPtr (astart + size_t PS (W * j))).
Proof.
  induction n as [|n IH]; intros i index astart W m j Hi Hx Hlen Hj;
    cbn [address_array]; [lia|].
  destruct (decide (j = i)) as [->|Hne].
  - unfold load_ptr. rewrite address_array_load_other by nia. simpl.
    apply load_ptr_store_same; nia.
  - apply IH; try nia. simpl. rewrite length_mem_store. nia.
Qed.

End Buffer.

(** ** The forward lookup, branch by branch *)

Section Forward.

Context (PS : Z) (HPS : 4 ≤ PS) (bld : build) (env : collaborator).

Lemma wanted {A : Type} (b : bool) (f : A) :
  bool_decide (is_Some (if b then Some f else None)) = b.
Proof. by destruct b. Qed.

Lemma finish_open (fd : Z) (st : nss_status) (m : machine) :
  (fd <? 0) = false → finish fd st m = (st, log (EvClose fd) m).
Proof.
  intros Hfd. unfold finish. rewrite (proj2 (Z.leb_le 0 fd)); [done|lia].
Qed.

Lemma finish_closed (fd : Z) (st : nss_status) (m : machine) :
  (fd <? 0) = true → finish fd st m = (st, m).
Proof.
  intros Hfd. unfold finish. rewrite (proj2 (Z.leb_gt 0 fd)); [done|lia].
Qed.

(** The forward lookup with its arithmetic carried out, for a record whose
    size fits in a [size_t]. *)
Lemma forward_spec (name : list byte) (af buflen : Z) (m : machine)
    (fd errno r : Z) (answers : list answer) :
  open_socket env = (fd, errno) →
  query_name env fd name (af =? AF_INET) (af =? AF_INET6) = (answers, r) →
  let u := forward_accumulator PS af answers in
  let required :=
    forward_required PS (strlen name)
      (Z.of_nat (length (accumulated af answers))) (address_length_of af) in
  required ≤ SIZE_MAX PS →
  _nss_mdns_gethostbyname2_r PS bld env name af buflen m =
    if family_unsupported bld af then
      (NSS_STATUS_UNAVAIL, set_errors EINVAL NO_RECOVERY m)
    else if buflen <? PS + strlen name + 1 then
      (NSS_STATUS_TRYAGAIN, set_errors ERANGE NO_RECOVERY m)
    else if fd <? 0 then
      (NSS_STATUS_UNAVAIL, set_errors errno NO_RECOVERY (log (EvOpen fd) m))
    else
      let m1 := log (EvQueryName fd name r) (log (EvOpen fd) m) in
      if r <? 0 then
        (NSS_STATUS_UNAVAIL,
         log (EvClose fd) (set_errors ETIMEDOUT HOST_NOT_FOUND m1))
      else if buflen <? required then
        (NSS_STATUS_TRYAGAIN,
         log (EvClose fd)
           (set_errors ERANGE NO_RECOVERY (forward_prefix PS name af m1)))
      else
        (NSS_STATUS_SUCCESS, log (EvClose fd) (forward_record PS name af u m1)).
Proof.
  intros Hopen Hquery u required Hfits.
  unfold _nss_mdns_gethostbyname2_r.
  destruct (family_unsupported bld af) eqn:Hfam; [done|].
  pose proof (supported_family bld af Hfam) as Haf.
  destruct (forward_accumulator_holds PS HPS af answers Haf)
    as (Hc & Hk & Hd & Hlen & Htake & Hall).
  fold u in Hc, Hd, Hlen, Htake.
  pose proof (address_length_bounds af) as HW.
  assert (0 ≤ strlen name) as HL by (unfold strlen; lia).
  assert (0 ≤ count u ≤ 16) as HN by (unfold MAX_ENTRIES in Hk; lia).
  unfold required, forward_required in Hfits |- *. rewrite <- Hc in Hfits |- *.
  rewrite (size_t_small PS (PS + strlen name + 1)) by nia.
  destruct (buflen <? PS + strlen name + 1); [by rewrite finish_closed|].
  unfold mdns_open_socket. rewrite Hopen.
  destruct (fd <? 0) eqn:Hfd; [by rewrite finish_closed|].
  unfold mdns_query_name. rewrite !wanted, Hquery.
  fold (forward_accumulator PS af answers). fold u.
  destruct (r <? 0); [by rewrite finish_open|].
  replace (PS + (strlen name + 1)) with (PS + strlen name + 1) by lia.
  rewrite !(size_t_small PS (PS + strlen name + 1)) by nia.
  rewrite !(size_t_small PS (count u * address_length_of af)) by nia.
  rewrite !(size_t_small PS
    (PS + strlen name + 1 + count u * address_length_of af)) by nia.
  rewrite Hd.
  replace (PS + strlen name + 1 + address_length_of af * count u
           + PS * (count u + 1))
    with (PS + strlen name + 1 + count u * address_length_of af
          + PS * (count u + 1)) by lia.
  rewrite size_t_small by nia.
  rewrite int_small by (unfold INT_MAX; lia).
  destruct (buflen <? _); [by rewrite finish_open|].
  unfold forward_record.
  destruct (address_array PS (Z.to_nat (count u)) 0
    (PS + strlen name + 1 + count u * address_length_of af)
    (PS + strlen name + 1) (address_length_of af) _) as [i m0] eqn:Harr.
  pose proof (address_array_frame PS (Z.to_nat (count u)) 0
    (PS + strlen name + 1 + count u * address_length_of af)
    (PS + strlen name + 1) (address_length_of af)
    (memcpy (PS + strlen name + 1) (data u)
       (count u * address_length_of af)
       (forward_prefix PS name af
          (log (EvQueryName fd name r) (log (EvOpen fd) m))))) as Hframe.
  unfold forward_prefix in Hframe |- *. rewrite Harr in Hframe.
  destruct Hframe as (Hi & _). cbn [fst snd] in Hi |- *.
  rewrite finish_open by done.
  replace i with (count u) by lia. done.
Qed.

End Forward.

(** ** The record of a forward lookup *)

Section ForwardRecord.

Context (PS : Z) (HPS : 4 ≤ PS).

Lemma inserts_read_inside {A : Type} (l k : list A) (i d n : nat) :
  (i + length k ≤ length l)%nat →
  (d + n ≤ length k)%nat →
  take n (drop (i + d) (list_inserts i k l)) = take n (drop d k).
Proof.
  intros Hle Hin. apply list_eq. intros x.
  rewrite !lookup_take, !lookup_drop.
  destruct (decide (x < n)%nat) as [Hx|Hx]; [|done].
  rewrite list_lookup_inserts by lia. f_equal. lia.
Qed.

(** The [i]-th of equally long chunks laid end to end. *)
Lemma concat_chunk {A : Type} (W : nat) (kept : list (list A)) :
  Forall (λ a, length a = W) kept →
  ∀ (i : nat) (a : list A),
    kept !! i = Some a → take W (drop (i * W) (concat kept)) = a.
Proof.
  induction 1 as [|b kept Hb _ IH]; intros i a Hi; [done|].
  destruct i as [|i]; simpl in Hi.
  - injection Hi as ->. rewrite drop_0. simpl.
    rewrite <- Hb. apply take_app_length.
  - change (S i * W)%nat with (W + i * W)%nat. rewrite <- drop_drop.
    replace (drop W (concat (b :: kept))) with (concat kept).
    + by apply IH.
    + simpl. rewrite <- Hb. symmetry. apply drop_app_length.
Qed.

Lemma forward_record_frame (name : list byte) (af : Z) (u : userdata)
    (m : machine) :
  let m' := forward_record PS name af u m in
  errnop m' = errnop m ∧ h_errnop m' = h_errnop m ∧ blocks m' = blocks m ∧
  trace m' = trace m ∧ length (buffer m') = length (buffer m) ∧
  result m' =
    {| h_name := BufPtr PS; h_aliases := BufPtr 0; h_addrtype := af;
       h_length := address_length_of af;
       h_addr_list :=
         BufPtr (PS + strlen name + 1 + count u * address_length_of af) |}.
Proof.
  unfold forward_record. cbv zeta.
  match goal with
  | |- context [address_array PS ?n ?i ?x ?a ?w ?m0] =>
      destruct (address_array_frame PS n i x a w m0)
        as (_ & H2 & H3 & H4 & H5 & H6 & H7)
  end.
  cbv zeta in H2, H3, H4, H5, H6, H7. simpl.
  rewrite length_mem_store, H2, H3, H4, H5, H6, H7. simpl.
  rewrite !length_mem_store. done.
Qed.

Lemma forward_record_stores (name : list byte) (af : Z) (u : userdata)
    (m : machine) :
  0 ≤ count u →
  Z.of_nat (length (data u)) = sizeof_data PS →
  count u * address_length_of af ≤ 256 →
  ∃ new,
    stores (forward_record PS name af u m) = stores m ++ new ∧
    Forall
      (within 0
         (forward_required PS (strlen name) (count u) (address_length_of af)))
      new.
Proof.
  intros HN Hlen Hl. unfold forward_record. cbv zeta.
  pose proof (address_length_bounds af) as HW.
  pose proof (sizeof_data_ge PS) as [Hsz _].
  assert (0 ≤ strlen name) as HL by (unfold strlen; lia).
  match goal with
  | |- context [address_array PS ?n ?i ?x ?a ?w ?m0] =>
      destruct (address_array_stores PS HPS n i x a w m0)
        as (new & Hnew & Hall); [lia|]
  end.
  eexists. split.
  - simpl. rewrite Hnew. simpl. rewrite <- !app_assoc. reflexivity.
  - unfold forward_required.
    rewrite !length_encode_ptr, length_string_bytes by lia.
    rewrite length_take.
    repeat (apply Forall_cons; split); [| | |apply Forall_app; split].
    + unfold within; simpl. nia.
    + unfold within; simpl. nia.
    + unfold within; simpl. nia.
    + eapply Forall_impl; [exact Hall|].
      intros [o l]; unfold within; simpl. nia.
    + repeat constructor; unfold within; simpl; nia.
Qed.

Lemma forward_record_loads (name : list byte) (af : Z) (u : userdata)
    (kept : list (list byte)) (m : machine) :
  holds PS (address_length_of af) u kept →
  let W := address_length_of af in
  let astart := PS + strlen name + 1 in
  let index := astart + count u * W in
  forward_required PS (strlen name) (count u) W
    ≤ Z.of_nat (length (buffer m)) →
  forward_required PS (strlen name) (count u) W ≤ SIZE_MAX PS →
  let b := buffer (forward_record PS name af u m) in
  load_ptr PS b 0 = Some NULL ∧
  mem_load b PS (strlen name + 1) = string_bytes name ∧
  (∀ (i : nat) (a : list byte),
     kept !! i = Some a →
     load_ptr PS b (index + PS * Z.of_nat i)
       = Some (BufPtr (astart + W * Z.of_nat i)) ∧
     mem_load b (astart + W * Z.of_nat i) W = MByte <$> a) ∧
  load_ptr PS b (index + PS * count u) = Some NULL.
Proof.
  intros (Hc & Hk & Hd & Hlen & Htake & Hall) W astart index Hroom Hfits b.
  pose proof (address_length_bounds af) as HW. fold W in HW, Htake, Hall, Hd.
  pose proof (sizeof_data_ge PS) as [Hsz _].
  assert (0 ≤ strlen name) as HL by (unfold strlen; lia).
  assert (0 ≤ count u ≤ 16) as HN by (unfold MAX_ENTRIES in Hk; lia).
  unfold forward_required in Hroom, Hfits.
  set (B2 := mem_store (mem_store (buffer m) 0 (encode_ptr PS NULL)) PS
               (string_bytes name)).
  set (vs := take (Z.to_nat (count u * W)) (data u)).
  assert (Z.of_nat (length vs) = count u * W) as Hvs.
  { unfold vs. rewrite length_take. nia. }
  assert (length B2 = length (buffer m)) as HB2.
  { unfold B2. by rewrite !length_mem_store. }
  set (m3 := memcpy astart (data u) (count u * W)
               (forward_prefix PS name af m)).
  assert (buffer m3 = mem_store B2 astart vs) as HB3 by done.
  set (arr := address_array PS (Z.to_nat (count u)) 0 index astart W m3).
  assert (b = mem_store (buffer arr.2) (index + PS * count u)
                (encode_ptr PS NULL)) as Hb by done.
  assert (length (buffer arr.2) = length (buffer m)) as Harr.
  { unfold arr.
    destruct (address_array_frame PS (Z.to_nat (count u)) 0 index astart W m3)
      as (_ & _ & _ & _ & _ & _ & ->).
    by rewrite HB3, length_mem_store. }
  pose proof (length_encode_ptr PS NULL ltac:(lia)) as Henc.
  pose proof (length_string_bytes name) as Hsb.
  assert (∀ off k, 0 ≤ off → 0 ≤ k → off + k ≤ index →
            mem_load b off k = mem_load (buffer m3) off k) as Hlow.
  { intros off k Hoff Hk0 Hle. rewrite Hb.
    rewrite mem_load_store_other by (unfold index in *; nia).
    unfold arr. apply address_array_load_other; unfold index in *; nia. }
  split; [|split; [|split; [intros i a Hia; split|]]].
  - unfold load_ptr. rewrite Hlow by (unfold index, astart; nia).
    rewrite HB3, mem_load_store_other by (unfold astart; nia).
    unfold B2. rewrite mem_load_store_other by nia.
    apply (load_ptr_store_same PS HPS); lia.
  - rewrite Hlow by (unfold index, astart; nia).
    rewrite HB3, mem_load_store_other by (unfold astart; nia).
    unfold B2. rewrite <- Hsb. apply mem_load_store_same; [lia|].
    rewrite length_mem_store. lia.
  - rewrite Hb.
    apply lookup_lt_Some in Hia as Hi.
    rewrite load_ptr_store_other
      by (rewrite ?Henc; unfold index, astart in *; nia).
    unfold arr. rewrite (address_array_load_ptr PS HPS).
    + rewrite size_t_small; [done|]. nia.
    + lia.
    + unfold index, astart; nia.
    + rewrite HB3, length_mem_store, HB2. unfold index, astart. nia.
    + nia.
  - apply lookup_lt_Some in Hia as Hi.
    rewrite Hlow by (unfold index, astart; nia).
    rewrite HB3. unfold mem_load, mem_store.
    replace (Z.to_nat (astart + W * Z.of_nat i))
      with (Z.to_nat astart + i * Z.to_nat W)%nat by (unfold astart; nia).
    rewrite inserts_read_inside by (unfold astart in *; nia).
    unfold vs. replace (count u * W) with (W * count u) by lia.
    rewrite Htake, <- fmap_drop, <- fmap_take. f_equal.
    apply concat_chunk; [|done].
    eapply Forall_impl; [exact Hall|]. simpl. intros; lia.
  - rewrite Hb. apply (load_ptr_store_same PS HPS).
    + unfold index, astart; nia.
    + rewrite Harr. unfold index, astart. nia.
Qed.

End ForwardRecord.

(** ** Properties of the forward lookup *)

Section ForwardProperties.

Context (PS : Z) (bld : build) (env : collaborator).

(** C1. In a forward lookup that reaches the query and gets [N] addresses
    of width [W] for a name of length [L], let
    [required = sizeof(char * ) + L + 1 + N * W + sizeof(char * ) * (N + 1)],
    a number that fits in a [size_t].  Then [0 <= N <= 16]; the call with
    [buflen = required] passes both capacity checks and returns
    [NSS_STATUS_SUCCESS]; and the call with [buflen = required - 1] returns
    [NSS_STATUS_TRYAGAIN] with [*errnop = ERANGE]. *)
Theorem exact_buffer_fits_one_less_does_not (name : list byte) (af : Z)
    (m : machine) (fd errno r : Z) (answers : list answer) :
  4 ≤ PS →
  family_unsupported bld af = false →
  open_socket env = (fd, errno) →
  0 ≤ fd →
  query_name env fd name (af =? AF_INET) (af =? AF_INET6) = (answers, r) →
  0 ≤ r →
  let N := Z.of_nat (length (accumulated af answers)) in
  let W := address_length_of af in
  let required := PS + strlen name + 1 + N * W + PS * (N + 1) in
  required ≤ SIZE_MAX PS →
  0 ≤ N ≤ MAX_ENTRIES ∧
  (_nss_mdns_gethostbyname2_r PS bld env name af required m).1
    = NSS_STATUS_SUCCESS ∧
  (_nss_mdns_gethostbyname2_r PS bld env name af (required - 1) m).1
    = NSS_STATUS_TRYAGAIN ∧
  errnop (_nss_mdns_gethostbyname2_r PS bld env name af (required - 1) m).2
    = ERANGE.
Proof.
  intros HPS Hfam Hopen Hfd Hquery Hr N W required Hfits.
  pose proof (address_length_bounds af) as HW. fold W in HW.
  assert (0 ≤ strlen name) as HL by (unfold strlen; lia).
  assert (0 ≤ N ≤ MAX_ENTRIES) as HN.
  { unfold N, accumulated, MAX_ENTRIES. rewrite length_take. lia. }
  split; [done|].
  rewrite !(forward_spec PS HPS bld env name af _ m fd errno r answers
              Hopen Hquery Hfits).
  rewrite Hfam.
  assert ((fd <? 0) = false) as -> by lia.
  assert ((r <? 0) = false) as -> by lia.
  fold N W. unfold forward_required. fold required. cbv zeta.
  assert ((required <? PS + strlen name + 1) = false) as ->
    by (unfold required; nia).
  assert ((required - 1 <? PS + strlen name + 1) = false) as ->
    by (unfold required; nia).
  assert ((required <? required) = false) as -> by lia.
  assert ((required - 1 <? required) = true) as -> by lia.
  done.
Qed.

(** C2. After a forward lookup returned [NSS_STATUS_SUCCESS] (the name a C
    string, the buffer [buflen] bytes long, the size of the record within
    [size_t]): [h_name] points at a NUL-terminated copy of the name;
    [h_aliases] points at a NULL entry; for every [i] below the number of
    accumulated addresses, [h_addr_list[i]] points at a range of the buffer
    that holds the [i]-th accumulated address, in arrival order;
    [h_addr_list[count]] is NULL; and [h_addrtype] and [h_length] are the
    family asked for and the width of its addresses. *)
Theorem forward_record_reads_back (name : list byte) (af buflen : Z)
    (m m' : machine) (fd errno r : Z) (answers : list answer) :
  4 ≤ PS →
  cstring name →
  Z.of_nat (length (buffer m)) = buflen →
  open_socket env = (fd, errno) →
  query_name env fd name (af =? AF_INET) (af =? AF_INET6) = (answers, r) →
  forward_required PS (strlen name)
    (Z.of_nat (length (accumulated af answers))) (address_length_of af)
    ≤ SIZE_MAX PS →
  _nss_mdns_gethostbyname2_r PS bld env name af buflen m
    = (NSS_STATUS_SUCCESS, m') →
  ∃ name_off alias_off list_off : Z,
    h_name (result m') = BufPtr name_off ∧
    load_cstring (buffer m') name_off = Some name ∧
    h_aliases (result m') = BufPtr alias_off ∧
    load_ptr PS (buffer m') alias_off = Some NULL ∧
    h_addr_list (result m') = BufPtr list_off ∧
    (∀ (i : nat) (a : list byte),
       accumulated af answers !! i = Some a →
       ∃ p : Z,
         load_ptr PS (buffer m') (list_off + PS * Z.of_nat i)
           = Some (BufPtr p) ∧
         0 ≤ p ∧ p + address_length_of af ≤ buflen ∧
         mem_load (buffer m') p (address_length_of af) = MByte <$> a) ∧
    load_ptr PS (buffer m')
      (list_off + PS * Z.of_nat (length (accumulated af answers)))
      = Some NULL ∧
    h_addrtype (result m') = af ∧
    h_length (result m') = address_length_of af.
Proof.
  intros HPS Hname Hlen Hopen Hquery Hfits Hcall.
  rewrite (forward_spec PS HPS bld env name af _ m fd errno r answers
             Hopen Hquery Hfits) in Hcall.
  destruct (family_unsupported bld af) eqn:Hfam; [discriminate|].
  destruct (buflen <? PS + strlen name + 1); [discriminate|].
  destruct (fd <? 0); [discriminate|]. cbv zeta in Hcall.
  destruct (r <? 0); [discriminate|].
  destruct (Z.ltb_spec buflen
    (forward_required PS (strlen name)
       (Z.of_nat (length (accumulated af answers))) (address_length_of af)))
    as [|Hroom]; [discriminate|].
  injection Hcall as <-.
  pose proof (supported_family bld af Hfam) as Haf.
  pose proof (forward_accumulator_holds PS HPS af answers Haf) as Hu.
  pose proof Hu as (Hc & Hk & _).
  rewrite <- Hc in Hroom, Hfits.
  set (m1 := log (EvQueryName fd name r) (log (EvOpen fd) m)) in *.
  destruct (forward_record_frame PS name af
              (forward_accumulator PS af answers) m1)
    as (_ & _ & _ & _ & _ & Hres).
  destruct (forward_record_loads PS HPS name af
              (forward_accumulator PS af answers) (accumulated af answers)
              m1 Hu) as (Halias & Hstr & Haddr & Hnull); [simpl; lia|done|].
  pose proof (address_length_bounds af) as HW.
  assert (0 ≤ strlen name) as HL by (unfold strlen; lia).
  eexists PS, 0, _. cbn [buffer result log]. rewrite Hres. cbn.
  split; [done|]. split; [by apply load_cstring_stored|].
  split; [done|]. split; [done|]. split; [reflexivity|].
  split; [|split; [|done]].
  - intros i a Hi. destruct (Haddr i a Hi) as [Hp Hbytes].
    apply lookup_lt_Some in Hi as Hlt.
    eexists. split; [exact Hp|]. split; [lia|]. split; [|exact Hbytes].
    unfold forward_required in Hroom. nia.
  - rewrite <- Hc. exact Hnull.
Qed.

End ForwardProperties.

(** ** The reverse lookup, branch by branch *)

Section Reverse.

Context (PS : Z) (HPS : 4 ≤ PS) (bld : build) (env : collaborator).

Lemma small_sizes_fit : PS + 16 + PS * 2 ≤ SIZE_MAX PS.
Proof.
  unfold SIZE_MAX.
  pose proof (Z.pow_gt_lin_r 2 (8 * PS) ltac:(lia) ltac:(lia)). lia.
Qed.

(** After the first name, slot 0 of [u.data.name] keeps what [strdup]
    returned for it, and the block it points at keeps the name. *)
Lemma name_callbacks_keep_first (names : list (list byte)) (p : ptr)
    (k : nat) (x : option (list byte)) :
  ∀ (u : userdata) (h : heap),
    1 ≤ count u ≤ MAX_ENTRIES →
    load_ptr PS (data u) 0 = Some p →
    h !! k = Some x →
    let uh := foldl (deliver_name (name_callback PS env)) (u, h) names in
    1 ≤ count uh.1 ≤ MAX_ENTRIES ∧
    load_ptr PS (data uh.1) 0 = Some p ∧
    uh.2 !! k = Some x.
Proof.
  induction names as [|s names IH]; intros u h Hc Hp Hk; cbn [foldl].
  - done.
  - destruct (deliver_name (name_callback PS env) (u, h) s) as [u1 h1]
      eqn:Hstep.
    unfold deliver_name, name_callback in Hstep.
    destruct (Z.leb_spec MAX_ENTRIES (count u)) as [Hfull|Hroom].
    + injection Hstep as <- <-. by apply IH.
    + unfold strdup in Hstep.
      destruct (strdup_ok env (length h)); injection Hstep as <- <-;
        (apply IH; cbn [count data];
         [unfold MAX_ENTRIES in *; lia
         |rewrite (load_ptr_store_other PS); [done|done|nia|lia|nia]
         |by apply lookup_app_l_Some]).
Qed.

Lemma reverse_accumulator_first (s : list byte) (names : list (list byte))
    (h : heap) :
  let uh := reverse_accumulator PS env (s :: names) h in
  0 < count uh.1 ∧
  load_ptr PS (data uh.1) 0
    = Some (if strdup_ok env (length h) then HeapPtr (length h) else NULL) ∧
  (strdup_ok env (length h) = true →
   heap_string uh.2 (HeapPtr (length h)) = Some s).
Proof.
  unfold reverse_accumulator. cbn [foldl].
  pose proof (sizeof_data_ge PS) as [_ Hsz]. unfold MAX_ENTRIES in Hsz.
  set (p := if strdup_ok env (length h) then HeapPtr (length h) else NULL).
  set (x := if strdup_ok env (length h) then Some s else None).
  set (u1 := {| count := 0 + 1;
                data_len := int (size_t PS (0 + (strlen s + 1)));
                data := mem_store (replicate (Z.to_nat (sizeof_data PS)) Undef)
                          (PS * 0) (encode_ptr PS p) |}).
  assert (deliver_name (name_callback PS env) (userdata_init PS, h) s
          = (u1, h ++ [x])) as ->.
  { unfold deliver_name, name_callback, strdup, userdata_init, u1, p, x.
    cbn [count data data_len]. change (MAX_ENTRIES <=? 0) with false.
    cbv iota. by destruct (strdup_ok env (length h)). }
  destruct (name_callbacks_keep_first names p (length h) x u1 (h ++ [x]))
    as (Hc & Hp & Hk).
  - unfold u1, MAX_ENTRIES. cbn [count]. lia.
  - unfold u1. cbn [data]. rewrite Z.mul_0_r.
    apply (load_ptr_store_same PS HPS); [lia|].
    rewrite length_replicate. lia.
  - by apply list_lookup_middle.
  - cbv zeta in Hc, Hp, Hk |- *. repeat split.
    + apply Z.lt_le_trans with 1; [done|apply Hc].
    + exact Hp.
    + intros Hok. unfold heap_string. rewrite Hk. unfold x.
      by rewrite Hok.
Qed.

(** The reverse lookup with its arithmetic carried out, for a record whose
    size fits in a [size_t]. *)
Lemma reverse_spec (addr : list byte) (len af buflen : Z) (m : machine)
    (fd errno r : Z) (names : list (list byte)) :
  open_socket env = (fd, errno) →
  reverse_answer env fd addr af = (names, r) →
  (∀ s, head names = Some s →
        reverse_required PS (strlen s) (address_length_of af)
          ≤ SIZE_MAX PS) →
  _nss_mdns_gethostbyaddr_r PS bld env addr len af buflen m =
    let m0 := set_errors EINVAL NO_RECOVERY m in
    if negb (len =? address_length_of af) || family_unsupported bld af then
      Ret (NSS_STATUS_UNAVAIL, m0)
    else if buflen <? PS + address_length_of af then
      Ret (NSS_STATUS_TRYAGAIN, set_errors ERANGE NO_RECOVERY m0)
    else if fd <? 0 then
      Ret (NSS_STATUS_UNAVAIL,
           set_errors errno NO_RECOVERY (log (EvOpen fd) m0))
    else
      let h := (reverse_accumulator PS env names (blocks m)).2 in
      let m1 :=
        log (reverse_event fd addr af r)
          (set_blocks h (log (EvOpen fd) m0)) in
      if r <? 0 then
        Ret (NSS_STATUS_UNAVAIL,
             log (EvClose fd) (set_errors ETIMEDOUT HOST_NOT_FOUND m1))
      else
        match names with
        | [] => AssertFail
        | s :: _ =>
            if strdup_ok env (length (blocks m)) then
              if buflen <?
                 reverse_required PS (strlen s) (address_length_of af)
              then
                Ret (NSS_STATUS_TRYAGAIN,
                     log (EvClose fd)
                       (set_errors ERANGE NO_RECOVERY (reverse_prefix PS m1)))
              else
                Ret (NSS_STATUS_SUCCESS,
                     log (EvClose fd) (reverse_record PS s addr af m1))
            else AssertFail
        end.
Proof.
  intros Hopen Hanswer Hfits.
  pose proof (address_length_bounds af) as HW.
  pose proof small_sizes_fit as Hsmall.
  unfold _nss_mdns_gethostbyaddr_r. cbv zeta.
  rewrite int_small by (unfold INT_MAX; lia).
  destruct (negb (len =? address_length_of af) || family_unsupported bld af);
    [done|].
  rewrite size_t_small by lia.
  destruct (buflen <? PS + address_length_of af);
    [by rewrite finish_closed|].
  unfold mdns_open_socket. rewrite Hopen.
  destruct (fd <? 0) eqn:Hfd; [by rewrite finish_closed|].
  assert ((if af =? AF_INET
           then mdns_query_ipv4 env fd addr (name_callback PS env)
                  (userdata_init PS)
                  (log (EvOpen fd) (set_errors EINVAL NO_RECOVERY m))
           else mdns_query_ipv6 env fd addr (name_callback PS env)
                  (userdata_init PS)
                  (log (EvOpen fd) (set_errors EINVAL NO_RECOVERY m)))
          = (r, (reverse_accumulator PS env names (blocks m)).1,
             log (reverse_event fd addr af r)
               (set_blocks (reverse_accumulator PS env names (blocks m)).2
                  (log (EvOpen fd) (set_errors EINVAL NO_RECOVERY m)))))
    as ->.
  { unfold reverse_answer, reverse_event in *.
    unfold mdns_query_ipv4, mdns_query_ipv6.
    destruct (af =? AF_INET); rewrite Hanswer; cbn [blocks log set_errors];
      fold (reverse_accumulator PS env names (blocks m));
      by destruct (reverse_accumulator PS env names (blocks m)). }
  destruct (r <? 0); [by rewrite finish_open|].
  destruct names as [|s names].
  - done.
  - destruct (reverse_accumulator_first s names (blocks m))
      as (Hc & Hp & Hs).
    cbv zeta in Hc, Hp, Hs.
    assert ((0 <? count (reverse_accumulator PS env (s :: names) (blocks m)).1)
            = true) as -> by lia.
    cbn [negb]. rewrite Hp.
    destruct (strdup_ok env (length (blocks m))); [|done].
    cbn [blocks log store set_h_aliases set_blocks set_result].
    rewrite (Hs eq_refl).
    specialize (Hfits s eq_refl). unfold reverse_required in Hfits |- *.
    assert (0 ≤ strlen s) as HL by (unfold strlen; lia).
    replace (strlen s + 1 + PS + address_length_of af + PS * 2)
      with (PS + strlen s + 1 + address_length_of af + PS * 2) by lia.
    rewrite (size_t_small PS
      (PS + strlen s + 1 + address_length_of af + PS * 2)) by lia.
    destruct (buflen <? _); [by rewrite finish_open|].
    replace (PS + (strlen s + 1)) with (PS + strlen s + 1) by lia.
    rewrite !(size_t_small PS (PS + strlen s + 1)) by lia.
    rewrite !(size_t_small PS (PS + strlen s + 1 + address_length_of af))
      by lia.
    rewrite finish_open by done. done.
Qed.

End Reverse.

(** ** The paths through the entry points *)

Section Paths.

Context (PS : Z) (bld : build) (env : collaborator).

(** The forward lookup as a chain of its tests; [c1] and [c2] are the
    outcomes of the two capacity checks. *)
Lemma forward_paths (name : list byte) (af buflen : Z) (m : machine)
    (fd errno r : Z) (answers : list answer) :
  open_socket env = (fd, errno) →
  query_name env fd name (af =? AF_INET) (af =? AF_INET6) = (answers, r) →
  let m1 := log (EvQueryName fd name r) (log (EvOpen fd) m) in
  let u := forward_accumulator PS af answers in
  let c1 := buflen <? size_t PS (PS + strlen name + 1) in
  let c2 :=
    buflen <?
    size_t PS (size_t PS (PS + (strlen name + 1)) + data_len u
               + PS * (count u + 1)) in
  ∃ written : machine,
    _nss_mdns_gethostbyname2_r PS bld env name af buflen m =
      (if family_unsupported bld af then
         (NSS_STATUS_UNAVAIL, set_errors EINVAL NO_RECOVERY m)
       else if c1 then
         (NSS_STATUS_TRYAGAIN, set_errors ERANGE NO_RECOVERY m)
       else if fd <? 0 then
         (NSS_STATUS_UNAVAIL,
          set_errors errno NO_RECOVERY (log (EvOpen fd) m))
       else if r <? 0 then
         (NSS_STATUS_UNAVAIL,
          log (EvClose fd) (set_errors ETIMEDOUT HOST_NOT_FOUND m1))
       else if c2 then
         (NSS_STATUS_TRYAGAIN,
          log (EvClose fd)
            (set_errors ERANGE NO_RECOVERY (forward_prefix PS name af m1)))
       else (NSS_STATUS_SUCCESS, log (EvClose fd) written)) ∧
    trace written = trace m1.
Proof.
  intros Hopen Hquery m1 u c1 c2.
  eexists. split.
  - unfold _nss_mdns_gethostbyname2_r, c1, c2.
    destruct (family_unsupported bld af); [reflexivity|].
    destruct (buflen <? size_t PS (PS + strlen name + 1));
      [by rewrite finish_closed|].
    unfold mdns_open_socket. rewrite Hopen.
    destruct (fd <? 0) eqn:Hfd; [by rewrite finish_closed|].
    unfold mdns_query_name. rewrite !wanted, Hquery.
    fold (forward_accumulator PS af answers). fold u. fold m1.
    destruct (r <? 0); [by rewrite finish_open|].
    assert (int (address_length_of af) = address_length_of af) as ->.
    { unfold address_length_of. by destruct (af =? AF_INET). }
    fold (forward_prefix PS name af m1).
    destruct (buflen <? _); [by rewrite finish_open|].
    match goal with
    | |- context [address_array PS ?n ?i ?x ?a ?w ?m0] =>
        rewrite (surjective_pairing (address_array PS n i x a w m0))
    end.
    rewrite finish_open by done. reflexivity.
  - cbn [trace set_h_addr_list set_result store].
    match goal with
    | |- context [address_array PS ?n ?i ?x ?a ?w ?m0] =>
        destruct (address_array_frame PS n i x a w m0)
          as (_ & _ & _ & _ & _ & -> & _)
    end.
    done.
Qed.

(** The reverse lookup as a chain of its tests, up to the [assert], and
    what follows the [assert]: [c1] and [c2] are the outcomes of the two
    capacity checks. *)
Lemma reverse_paths (addr : list byte) (len af buflen : Z) (m : machine)
    (fd errno r : Z) (names : list (list byte)) :
  4 ≤ PS →
  open_socket env = (fd, errno) →
  reverse_answer env fd addr af = (names, r) →
  let m0 := set_errors EINVAL NO_RECOVERY m in
  let h := (reverse_accumulator PS env names (blocks m)).2 in
  let m1 :=
    log (reverse_event fd addr af r) (set_blocks h (log (EvOpen fd) m0)) in
  let c1 := buflen <? size_t PS (PS + address_length_of af) in
  ∃ tail : outcome (nss_status * machine),
    _nss_mdns_gethostbyaddr_r PS bld env addr len af buflen m =
      (if negb (len =? address_length_of af) || family_unsupported bld af
       then Ret (NSS_STATUS_UNAVAIL, m0)
       else if c1 then
         Ret (NSS_STATUS_TRYAGAIN, set_errors ERANGE NO_RECOVERY m0)
       else if fd <? 0 then
         Ret (NSS_STATUS_UNAVAIL,
              set_errors errno NO_RECOVERY (log (EvOpen fd) m0))
       else if r <? 0 then
         Ret (NSS_STATUS_UNAVAIL,
              log (EvClose fd) (set_errors ETIMEDOUT HOST_NOT_FOUND m1))
       else tail) ∧
    ((fd <? 0) = false →
     match names with
     | [] => tail = AssertFail
     | s :: _ =>
         if strdup_ok env (length (blocks m)) then
           let c2 :=
             buflen <?
             size_t PS (strlen s + 1 + PS + address_length_of af + PS * 2) in
           ∃ written : machine,
             tail =
               (if c2 then
                  Ret (NSS_STATUS_TRYAGAIN,
                       log (EvClose fd)
                         (set_errors ERANGE NO_RECOVERY
                            (reverse_prefix PS m1)))
                else Ret (NSS_STATUS_SUCCESS, log (EvClose fd) written)) ∧
             trace written = trace m1
         else tail = AssertFail
     end).
Proof.
  intros HPS Hopen Hanswer m0 h m1 c1.
  eexists. split.
  - unfold _nss_mdns_gethostbyaddr_r, c1. cbv zeta.
    assert (int (address_length_of af) = address_length_of af) as ->.
    { unfold address_length_of. by destruct (af =? AF_INET). }
    destruct (negb (len =? address_length_of af) || family_unsupported bld af);
      [reflexivity|].
    destruct (buflen <? size_t PS (PS + address_length_of af));
      [by rewrite finish_closed|].
    unfold mdns_open_socket. rewrite Hopen.
    destruct (fd <? 0) eqn:Hfd; [by rewrite finish_closed|].
    assert ((if af =? AF_INET
             then mdns_query_ipv4 env fd addr (name_callback PS env)
                    (userdata_init PS)
                    (log (EvOpen fd) (set_errors EINVAL NO_RECOVERY m))
             else mdns_query_ipv6 env fd addr (name_callback PS env)
                    (userdata_init PS)
                    (log (EvOpen fd) (set_errors EINVAL NO_RECOVERY m)))
            = (r, (reverse_accumulator PS env names (blocks m)).1, m1))
      as ->.
    { unfold m1, h, m0, reverse_answer, reverse_event in *.
      unfold mdns_query_ipv4, mdns_query_ipv6.
      destruct (af =? AF_INET); rewrite Hanswer; cbn [blocks log set_errors];
        fold (reverse_accumulator PS env names (blocks m));
        by destruct (reverse_accumulator PS env names (blocks m)). }
    destruct (r <? 0); [by rewrite finish_open|].
    reflexivity.
  - intros Hfd. destruct names as [|s names].
    + done.
    + destruct (reverse_accumulator_first PS HPS env s names (blocks m))
        as (Hc & Hp & Hs).
      cbv zeta in Hc, Hp, Hs.
      assert ((0 <? count (reverse_accumulator PS env (s :: names)
                             (blocks m)).1) = true) as -> by lia.
      cbn [negb]. rewrite Hp.
      destruct (strdup_ok env (length (blocks m))); [|done].
      assert (blocks (set_h_aliases (BufPtr 0)
                        (store 0 (encode_ptr PS NULL) m1))
              = (reverse_accumulator PS env (s :: names) (blocks m)).2)
        as -> by done.
      rewrite (Hs eq_refl). cbv zeta.
      eexists. split.
      * destruct (buflen <?
                  size_t PS (strlen s + 1 + PS + address_length_of af + PS * 2));
          rewrite finish_open by done; reflexivity.
      * done.
Qed.

End Paths.

(** ** Properties of every entry point *)

Section EntryPoints.

Context (PS : Z) (bld : build) (env : collaborator).

Lemma released_once_nil : released_once [].
Proof.
  unfold released_once. simpl. repeat split; [lia|].
  intros fd Hin. inversion Hin.
Qed.

Lemma released_once_failed (fd : Z) :
  (fd <? 0) = true → released_once [EvOpen fd].
Proof.
  intros Hfd. unfold released_once, opened, closed. simpl.
  assert ((0 <=? fd) = false) as -> by lia. simpl.
  repeat split; [lia|]. intros x Hin. inversion Hin.
Qed.

Lemma released_once_query (fd : Z) (q : event) :
  (fd <? 0) = false → is_query q → released_once [EvOpen fd; q; EvClose fd].
Proof.
  intros Hfd Hq. unfold released_once, opened, closed.
  destruct q; try done; simpl;
    (assert ((0 <=? fd) = true) as -> by lia); simpl;
    (repeat split; [lia|]);
    intros x Hin; apply list_elem_of_singleton in Hin as ->; done.
Qed.

Lemma is_query_reverse_event (fd : Z) (addr : list byte) (af r : Z) :
  is_query (reverse_event fd addr af r).
Proof. unfold reverse_event. by destruct (af =? AF_INET). Qed.

Lemma forward_released (name : list byte) (af buflen : Z) (m m' : machine)
    (st : nss_status) :
  _nss_mdns_gethostbyname2_r PS bld env name af buflen m = (st, m') →
  ∃ evs, trace m' = trace m ++ evs ∧ released_once evs.
Proof.
  intros Hcall.
  destruct (open_socket env) as [fd errno] eqn:Hopen.
  destruct (query_name env fd name (af =? AF_INET) (af =? AF_INET6))
    as [answers r] eqn:Hquery.
  destruct (forward_paths PS bld env name af buflen m fd errno r answers
              Hopen Hquery) as (written & Heq & Htr).
  cbv zeta in Heq. rewrite Heq in Hcall. clear Heq.
  destruct (family_unsupported bld af);
    [injection Hcall as <- <-; exists [];
     split; [by rewrite app_nil_r|apply released_once_nil]|].
  destruct (buflen <? size_t PS (PS + strlen name + 1));
    [injection Hcall as <- <-; exists [];
     split; [by rewrite app_nil_r|apply released_once_nil]|].
  destruct (fd <? 0) eqn:Hfd;
    [injection Hcall as <- <-; exists [EvOpen fd];
     split; [done|by apply released_once_failed]|].
  exists [EvOpen fd; EvQueryName fd name r; EvClose fd].
  split; [|by apply released_once_query].
  destruct (r <? 0); [|destruct (buflen <? _)]; injection Hcall as <- <-;
    cbn [trace log set_errors forward_prefix set_h_length set_h_addrtype
         set_h_name set_h_aliases set_result strcpy store];
    rewrite ?Htr; cbn [trace log]; by rewrite <- !app_assoc.
Qed.

Lemma reverse_released (addr : list byte) (len af buflen : Z)
    (m m' : machine) (st : nss_status) :
  4 ≤ PS →
  _nss_mdns_gethostbyaddr_r PS bld env addr len af buflen m = Ret (st, m') →
  ∃ evs, trace m' = trace m ++ evs ∧ released_once evs.
Proof.
  intros HPS Hcall.
  destruct (open_socket env) as [fd errno] eqn:Hopen.
  destruct (reverse_answer env fd addr af) as [names r] eqn:Hanswer.
  destruct (reverse_paths PS bld env addr len af buflen m fd errno r names
              HPS Hopen Hanswer) as (tail & Heq & Htail).
  cbv zeta in Heq, Htail. rewrite Heq in Hcall. clear Heq.
  destruct (negb (len =? address_length_of af) || family_unsupported bld af);
    [injection Hcall as <- <-; exists [];
     split; [by rewrite app_nil_r|apply released_once_nil]|].
  destruct (buflen <? size_t PS (PS + address_length_of af));
    [injection Hcall as <- <-; exists [];
     split; [by rewrite app_nil_r|apply released_once_nil]|].
  destruct (fd <? 0) eqn:Hfd;
    [injection Hcall as <- <-; exists [EvOpen fd];
     split; [done|by apply released_once_failed]|].
  exists [EvOpen fd; reverse_event fd addr af r; EvClose fd].
  split; [|by apply released_once_query, is_query_reverse_event].
  destruct (r <? 0).
  { injection Hcall as <- <-. cbn [trace log set_errors set_blocks].
    by rewrite <- !app_assoc. }
  specialize (Htail eq_refl). destruct names as [|s names]; [by subst|].
  destruct (strdup_ok env (length (blocks m))); [|by subst].
  destruct Htail as (written & -> & Htr).
  destruct (buflen <? _); injection Hcall as <- <-;
    cbn [trace log set_errors reverse_prefix set_h_aliases set_result store];
    rewrite ?Htr; cbn [trace log set_blocks set_errors];
    by rewrite <- !app_assoc.
Qed.

(** A query that fails leaves the status at its initial value,
    [NSS_STATUS_UNAVAIL], with [HOST_NOT_FOUND] in [*h_errnop]. *)
Lemma forward_negative_query (name : list byte) (af buflen : Z) (m : machine)
    (fd errno r : Z) (answers : list answer) :
  family_unsupported bld af = false →
  size_t PS (PS + strlen name + 1) ≤ buflen →
  open_socket env = (fd, errno) →
  0 ≤ fd →
  query_name env fd name (af =? AF_INET) (af =? AF_INET6) = (answers, r) →
  r < 0 →
  _nss_mdns_gethostbyname2_r PS bld env name af buflen m =
    (NSS_STATUS_UNAVAIL,
     log (EvClose fd)
       (set_errors ETIMEDOUT HOST_NOT_FOUND
          (log (EvQueryName fd name r) (log (EvOpen fd) m)))).
Proof.
  intros Hfam Hcoarse Hopen Hfd Hquery Hr.
  destruct (forward_paths PS bld env name af buflen m fd errno r answers
              Hopen Hquery) as (written & Heq & _).
  cbv zeta in Heq. rewrite Heq, Hfam.
  assert ((buflen <? size_t PS (PS + strlen name + 1)) = false) as -> by lia.
  assert ((fd <? 0) = false) as -> by lia.
  assert ((r <? 0) = true) as -> by lia.
  done.
Qed.

Lemma reverse_negative_query (addr : list byte) (len af buflen : Z)
    (m : machine) (fd errno r : Z) (names : list (list byte)) :
  4 ≤ PS →
  invalid_argument bld (GetHostByAddr addr len af) = false →
  size_t PS (PS + address_length_of af) ≤ buflen →
  open_socket env = (fd, errno) →
  0 ≤ fd →
  reverse_answer env fd addr af = (names, r) →
  r < 0 →
  ∃ m',
    _nss_mdns_gethostbyaddr_r PS bld env addr len af buflen m
      = Ret (NSS_STATUS_UNAVAIL, m') ∧
    errnop m' = ETIMEDOUT ∧
    h_errnop m' = HOST_NOT_FOUND ∧
    buffer m' = buffer m ∧
    result m' = result m.
Proof.
  intros HPS Hvalid Hcoarse Hopen Hfd Hanswer Hr.
  destruct (reverse_paths PS bld env addr len af buflen m fd errno r names
              HPS Hopen Hanswer) as (tail & Heq & _).
  cbv zeta in Heq. cbn [invalid_argument] in Hvalid. rewrite Heq, Hvalid.
  assert ((buflen <? size_t PS (PS + address_length_of af)) = false)
    as -> by lia.
  assert ((fd <? 0) = false) as -> by lia.
  assert ((r <? 0) = true) as -> by lia.
  eexists. split; [reflexivity|done].
Qed.

(** C8. Whenever an entry point returns, whatever the status, the calls it
    made are a (possibly failed) open, at most one query and, exactly when
    the open gave a descriptor [fd >= 0], one close of that descriptor as
    the last call: a channel that was opened is closed exactly once before
    the return, and none is closed that was not opened. *)
Theorem channel_released_once (rq : request) (buflen : Z) (m m' : machine)
    (st : nss_status) :
  4 ≤ PS →
  call PS bld env rq buflen m = Ret (st, m') →
  ∃ evs, trace m' = trace m ++ evs ∧ released_once evs.
Proof.
  intros HPS Hcall. destruct rq as [name af|name|addr len af];
    cbn [call] in Hcall.
  - injection Hcall as Hcall. by eapply forward_released.
  - injection Hcall as Hcall. by eapply forward_released.
  - by eapply reverse_released.
Qed.

(** C5. When the family asked for is not supported by the build or, in a
    reverse lookup, the length of the address is not the width of that
    family, the entry point returns with [*errnop = EINVAL] and
    [*h_errnop = NO_RECOVERY] and has called nothing: no channel was opened
    and no query made.  It returns [NSS_STATUS_UNAVAIL] and leaves buffer
    and [*result] as they were. *)
Theorem invalid_argument_is_rejected (rq : request) (buflen : Z)
    (m : machine) :
  invalid_argument bld rq = true →
  ∃ m',
    call PS bld env rq buflen m = Ret (NSS_STATUS_UNAVAIL, m') ∧
    errnop m' = EINVAL ∧
    h_errnop m' = NO_RECOVERY ∧
    trace m' = trace m ∧
    buffer m' = buffer m ∧
    result m' = result m.
Proof.
  intros Hinv. destruct rq as [name af|name|addr len af];
    cbn [call invalid_argument] in *.
  - unfold _nss_mdns_gethostbyname2_r. rewrite Hinv.
    eexists. split; [reflexivity|done].
  - unfold _nss_mdns_gethostbyname_r, _nss_mdns_gethostbyname2_r.
    unfold default_family in Hinv. rewrite Hinv.
    eexists. split; [reflexivity|done].
  - unfold _nss_mdns_gethostbyaddr_r. cbv zeta.
    assert (int (address_length_of af) = address_length_of af) as ->.
    { unfold address_length_of. by destruct (af =? AF_INET). }
    rewrite Hinv. eexists. split; [reflexivity|done].
Qed.

(** C9. [_nss_mdns_gethostbyname_r] returns the status and leaves the state
    that [_nss_mdns_gethostbyname2_r] does when called with the same
    arguments and the default family of the build: [AF_INET6] under
    [NSS_IPV6_ONLY], [AF_INET] otherwise. *)
Theorem gethostbyname_is_gethostbyname2_default (name : list byte)
    (buflen : Z) (m : machine) :
  _nss_mdns_gethostbyname_r PS bld env name buflen m
  = _nss_mdns_gethostbyname2_r PS bld env name (default_family bld) buflen m.
Proof. reflexivity. Qed.

(** C10. In a reverse lookup with valid arguments whose channel opened and
    whose query returned a nonnegative result: if the query delivered no
    name, the [assert] fails; and the call returns (with whatever status)
    only if the query delivered a name and the [strdup] of the first name
    gave a pointer that is not null. *)
Theorem reverse_lookup_asserts_a_name (addr : list byte) (len af buflen : Z)
    (m : machine) (fd errno r : Z) (names : list (list byte)) :
  4 ≤ PS →
  invalid_argument bld (GetHostByAddr addr len af) = false →
  size_t PS (PS + address_length_of af) ≤ buflen →
  open_socket env = (fd, errno) →
  0 ≤ fd →
  reverse_answer env fd addr af = (names, r) →
  0 ≤ r →
  (names = [] →
   _nss_mdns_gethostbyaddr_r PS bld env addr len af buflen m = AssertFail) ∧
  (∀ st m',
     _nss_mdns_gethostbyaddr_r PS bld env addr len af buflen m = Ret (st, m') →
     names ≠ [] ∧ strdup_ok env (length (blocks m)) = true) ∧
  _nss_mdns_gethostbyaddr_r PS bld env addr len af buflen m ≠ Undefined.
Proof.
  intros HPS Hvalid Hcoarse Hopen Hfd Hanswer Hr.
  destruct (reverse_paths PS bld env addr len af buflen m fd errno r names
              HPS Hopen Hanswer) as (tail & Heq & Htail).
  cbv zeta in Heq, Htail.
  assert ((buflen <? size_t PS (PS + address_length_of af)) = false)
    as Hc by lia.
  rewrite Hc in Heq.
  cbn [invalid_argument] in Hvalid. rewrite Hvalid in Heq.
  assert ((fd <? 0) = false) as Hfd' by lia.
  assert ((r <? 0) = false) as Hr' by lia.
  rewrite Hfd', Hr' in Heq. specialize (Htail Hfd'). rewrite Heq.
  clear Heq.
  destruct names as [|s names].
  - subst tail. split; [done|]. split; [|discriminate].
    intros st m' Hret. discriminate.
  - destruct (strdup_ok env (length (blocks m))).
    + destruct Htail as (written & -> & _).
      split; [done|]. split; [done|].
      case_match; discriminate.
    + subst tail. split; [done|]. split; [|discriminate].
      intros st m' Hret. discriminate.
Qed.

End EntryPoints.

(** ** What a call leaves in the buffer *)

Section Footprint.

Context (PS : Z) (HPS : 4 ≤ PS) (bld : build) (env : collaborator).

Lemma forward_record_inside (name : list byte) (af buflen fd : Z)
    (answers : list answer) (m m1 : machine) :
  af = AF_INET ∨ af = AF_INET6 →
  buffer m1 = buffer m →
  stores m1 = stores m →
  Z.of_nat (length (buffer m)) = buflen →
  let u := forward_accumulator PS af answers in
  forward_required PS (strlen name) (count u) (address_length_of af)
    ≤ buflen →
  forward_required PS (strlen name) (count u) (address_length_of af)
    ≤ SIZE_MAX PS →
  record_inside PS buflen m
    (log (EvClose fd) (forward_record PS name af u m1)).
Proof.
  intros Haf Hbuf Hst Hlen u Hroom Hfits.
  pose proof (forward_accumulator_holds PS HPS af answers Haf) as Hu.
  fold u in Hu. pose proof Hu as (Hc & Hk & Hd & Hdata & _).
  pose proof (address_length_bounds af) as HW.
  assert (0 ≤ strlen name) as HL by (unfold strlen; lia).
  assert (0 ≤ count u ≤ 16) as HN by (unfold MAX_ENTRIES in Hk; lia).
  destruct (forward_record_frame PS name af u m1)
    as (_ & _ & _ & _ & _ & Hres).
  destruct (forward_record_loads PS HPS name af u (accumulated af answers)
              m1 Hu) as (Halias & _ & Haddr & Hnull);
    [rewrite Hbuf; lia|done|].
  destruct (forward_record_stores PS HPS name af u m1)
    as (new & Hnew & Hall); [lia|done|nia|].
  unfold forward_required in Hroom.
  unfold record_inside. cbn [result buffer stores log]. rewrite Hres.
  cbn [h_name h_aliases h_addr_list in_buffer].
  split; [nia|]. split; [nia|]. split; [nia|].
  split; [by exists 0|]. split.
  - eexists _, (count u). split; [reflexivity|]. split; [lia|].
    split; [|exact Hnull].
    intros i Hi.
    destruct (lookup_lt_is_Some_2 (accumulated af answers) (Z.to_nat i))
      as [a Ha]; [lia|].
    destruct (Haddr _ a Ha) as [Hp _].
    rewrite Z2Nat.id in Hp by lia.
    eexists. split; [exact Hp|]. cbn [in_buffer]. nia.
  - exists new. split; [by rewrite Hnew, Hst|].
    eapply Forall_impl; [exact Hall|].
    intros [o l]; unfold within, forward_required; simpl. lia.
Qed.

Lemma result_log (e : event) (m : machine) : result (log e m) = result m.
Proof. reflexivity. Qed.

Lemma buffer_log (e : event) (m : machine) : buffer (log e m) = buffer m.
Proof. reflexivity. Qed.

Lemma stores_log (e : event) (m : machine) : stores (log e m) = stores m.
Proof. reflexivity. Qed.

Lemma reverse_record_frame (s addr : list byte) (af : Z) (m : machine) :
  let W := address_length_of af in
  let astart := PS + strlen s + 1 in
  let index := astart + W in
  let m' := reverse_record PS s addr af m in
  result m' =
    {| h_name := BufPtr PS; h_aliases := BufPtr 0; h_addrtype := af;
       h_length := W; h_addr_list := BufPtr index |} ∧
  buffer m' =
    mem_store
      (mem_store
         (mem_store
            (mem_store (mem_store (buffer m) 0 (encode_ptr PS NULL)) PS
               (string_bytes s))
            astart (take (Z.to_nat W) (MByte <$> addr)))
         index (encode_ptr PS (BufPtr astart)))
      (index + PS * 1) (encode_ptr PS NULL) ∧
  stores m' =
    stores m ++
    [(0, Z.of_nat (length (encode_ptr PS NULL)));
     (PS, Z.of_nat (length (string_bytes s)));
     (astart, Z.of_nat (length (take (Z.to_nat W) (MByte <$> addr))));
     (index, Z.of_nat (length (encode_ptr PS (BufPtr astart))));
     (index + PS * 1, Z.of_nat (length (encode_ptr PS NULL)))].
Proof.
  cbv zeta. unfold reverse_record, reverse_prefix.
  split; [|split]; simpl; [done|done|].
  by rewrite <- !app_assoc.
Qed.

Lemma reverse_record_inside (s addr : list byte) (af buflen fd : Z)
    (m m1 : machine) :
  buffer m1 = buffer m →
  stores m1 = stores m →
  Z.of_nat (length (buffer m)) = buflen →
  reverse_required PS (strlen s) (address_length_of af) ≤ buflen →
  record_inside PS buflen m
    (log (EvClose fd) (reverse_record PS s addr af m1)).
Proof.
  intros Hbuf Hst Hlen Hroom.
  pose proof (address_length_bounds af) as HW.
  assert (0 ≤ strlen s) as HL by (unfold strlen; lia).
  unfold reverse_required in Hroom.
  pose proof (length_encode_ptr PS NULL ltac:(lia)) as Henc.
  pose proof (length_string_bytes s) as Hsb.
  destruct (reverse_record_frame s addr af m1) as (Hres & HB & Hstores).
  cbv zeta in Hres, HB, Hstores.
  unfold record_inside.
  rewrite !result_log, !buffer_log, !stores_log.
  rewrite Hres, HB, Hstores, Hbuf, Hst. clear Hres HB Hstores.
  generalize dependent (address_length_of af). intros W Hroom HW.
  set (vs := take (Z.to_nat W) (MByte <$> addr)).
  assert (Z.of_nat (length vs) ≤ W) as Hvs.
  { unfold vs. rewrite length_take. lia. }
  cbn [h_name h_aliases h_addr_list in_buffer].
  split; [lia|]. split; [lia|]. split; [lia|].
  split; [|split].
  - exists 0. split; [done|].
    rewrite !(load_ptr_store_other PS)
      by (rewrite ?length_encode_ptr by lia; lia).
    apply (load_ptr_store_same PS HPS); lia.
  - exists (PS + strlen s + 1 + W), 1.
    split; [done|]. split; [lia|]. split.
    + intros i Hi. assert (i = 0) as -> by lia.
      exists (BufPtr (PS + strlen s + 1)). rewrite Z.mul_0_r, Z.add_0_r.
      split; [|cbn [in_buffer]; lia].
      rewrite (load_ptr_store_other PS)
        by (rewrite ?length_encode_ptr by lia; lia).
      apply (load_ptr_store_same PS HPS); [lia|].
      rewrite !length_mem_store. lia.
    + apply (load_ptr_store_same PS HPS); [lia|].
      rewrite !length_mem_store. lia.
  - eexists. split; [reflexivity|].
    rewrite !length_encode_ptr, Hsb by lia.
    repeat (apply Forall_cons; split); [..|apply Forall_nil];
      unfold within; cbn [fst snd]; lia.
Qed.

Lemma forward_inside (name : list byte) (af buflen : Z) (m m' : machine) :
  Z.of_nat (length (buffer m)) = buflen →
  forward_size PS env name af ≤ SIZE_MAX PS →
  _nss_mdns_gethostbyname2_r PS bld env name af buflen m
    = (NSS_STATUS_SUCCESS, m') →
  record_inside PS buflen m m'.
Proof.
  intros Hlen Hfits Hcall. unfold forward_size in Hfits.
  destruct (open_socket env) as [fd errno] eqn:Hopen.
  cbn [fst] in Hfits.
  destruct (query_name env fd name (af =? AF_INET) (af =? AF_INET6))
    as [answers r] eqn:Hquery.
  cbn [fst] in Hfits.
  rewrite (forward_spec PS HPS bld env name af _ m fd errno r answers
             Hopen Hquery Hfits) in Hcall.
  destruct (family_unsupported bld af) eqn:Hfam; [discriminate|].
  destruct (buflen <? PS + strlen name + 1); [discriminate|].
  destruct (fd <? 0); [discriminate|]. cbv zeta in Hcall.
  destruct (r <? 0); [discriminate|].
  destruct (Z.ltb_spec buflen
    (forward_required PS (strlen name)
       (Z.of_nat (length (accumulated af answers))) (address_length_of af)))
    as [|Hroom]; [discriminate|].
  injection Hcall as <-.
  pose proof (supported_family bld af Hfam) as Haf.
  destruct (forward_accumulator_holds PS HPS af answers Haf) as (Hc & _).
  rewrite <- Hc in Hroom, Hfits.
  by apply forward_record_inside.
Qed.

(** C3. For every call, forward or reverse, that returns
    [NSS_STATUS_SUCCESS] (the buffer [buflen] bytes long, the size of the
    record within [size_t]): [h_name], [h_aliases], [h_addr_list] and the
    entries of the address array before its NULL entry point at offsets
    inside [[buffer, buffer + buflen)], the alias array being a NULL entry;
    and every write of the call lies in that range. *)
Theorem success_stays_inside_buffer (rq : request) (buflen : Z)
    (m m' : machine) :
  Z.of_nat (length (buffer m)) = buflen →
  required_size PS bld env rq ≤ SIZE_MAX PS →
  call PS bld env rq buflen m = Ret (NSS_STATUS_SUCCESS, m') →
  record_inside PS buflen m m'.
Proof.
  intros Hlen Hfits Hcall. destruct rq as [name af|name|addr len af];
    cbn [call required_size] in Hcall, Hfits.
  - injection Hcall as Hcall. by eapply forward_inside.
  - injection Hcall as Hcall. by eapply forward_inside.
  - destruct (open_socket env) as [fd errno] eqn:Hopen.
    cbn [fst] in Hfits.
    destruct (reverse_answer env fd addr af) as [names r] eqn:Hanswer.
    cbn [fst] in Hfits.
    rewrite (reverse_spec PS HPS bld env addr len af buflen m fd errno r
               names Hopen Hanswer) in Hcall.
    + cbv zeta in Hcall.
      destruct (negb (len =? address_length_of af)
                || family_unsupported bld af); [discriminate|].
      destruct (buflen <? PS + address_length_of af); [discriminate|].
      destruct (fd <? 0); [discriminate|].
      destruct (r <? 0); [discriminate|].
      destruct names as [|s names]; [discriminate|].
      destruct (strdup_ok env (length (blocks m))); [|discriminate].
      destruct (Z.ltb_spec buflen
        (reverse_required PS (strlen s) (address_length_of af)))
        as [|Hroom]; [discriminate|].
      injection Hcall as <-.
      by apply reverse_record_inside.
    + intros s Hs. by rewrite Hs in Hfits.
Qed.

End Footprint.

(** ** What a failed call leaves behind *)

Section Failure.

Context (PS : Z) (HPS : 4 ≤ PS) (bld : build) (env : collaborator).

Lemma longer_trace_differs (t : list event) (e : event) (evs : list event) :
  t ++ e :: evs ≠ t.
Proof.
  intros Heq. apply (f_equal length) in Heq.
  rewrite length_app in Heq. simpl in Heq. lia.
Qed.

(** The part of the record written before the second check of a forward
    lookup ends with the name. *)
Lemma forward_prefix_footprint (name : list byte) (af : Z) (m : machine) :
  h_addr_list (result (forward_prefix PS name af m))
    = h_addr_list (result m) ∧
  drop (Z.to_nat (PS + (strlen name + 1)))
       (buffer (forward_prefix PS name af m))
    = drop (Z.to_nat (PS + (strlen name + 1))) (buffer m).
Proof.
  split; [done|].
  pose proof (length_encode_ptr PS NULL ltac:(lia)) as Henc.
  pose proof (length_string_bytes name) as Hsb.
  assert (0 ≤ strlen name) as HL by (unfold strlen; lia).
  unfold forward_prefix, strcpy.
  cbn [buffer set_h_length set_h_addrtype set_h_name set_h_aliases
       set_result store].
  unfold mem_store. rewrite !inserts_drop_after by lia. done.
Qed.

Lemma reverse_prefix_footprint (m : machine) :
  h_addr_list (result (reverse_prefix PS m)) = h_addr_list (result m) ∧
  drop (Z.to_nat PS) (buffer (reverse_prefix PS m))
    = drop (Z.to_nat PS) (buffer m).
Proof.
  split; [done|].
  pose proof (length_encode_ptr PS NULL ltac:(lia)) as Henc.
  unfold reverse_prefix. cbn [buffer set_h_aliases set_result store].
  unfold mem_store. rewrite !inserts_drop_after by lia. done.
Qed.

Lemma forward_failure (name : list byte) (af buflen : Z) (m m' : machine)
    (st : nss_status) :
  _nss_mdns_gethostbyname2_r PS bld env name af buflen m = (st, m') →
  st ≠ NSS_STATUS_SUCCESS →
  h_addr_list (result m') = h_addr_list (result m) ∧
  drop (Z.to_nat (PS + (strlen name + 1))) (buffer m')
    = drop (Z.to_nat (PS + (strlen name + 1))) (buffer m) ∧
  (st = NSS_STATUS_UNAVAIL ∨ trace m' = trace m →
   buffer m' = buffer m ∧ result m' = result m).
Proof.
  intros Hcall Hst.
  destruct (open_socket env) as [fd errno] eqn:Hopen.
  destruct (query_name env fd name (af =? AF_INET) (af =? AF_INET6))
    as [answers r] eqn:Hquery.
  destruct (forward_paths PS bld env name af buflen m fd errno r answers
              Hopen Hquery) as (written & Heq & Htr).
  cbv zeta in Heq. rewrite Heq in Hcall. clear Heq.
  repeat case_match; injection Hcall as <- <-; try done.
  destruct (forward_prefix_footprint name af
              (log (EvQueryName fd name r) (log (EvOpen fd) m)))
    as [Hlist Hdrop].
  split; [exact Hlist|]. split; [exact Hdrop|].
  intros [Hun|Htrace]; [discriminate|]. exfalso.
  cbn [trace log set_errors forward_prefix set_h_length set_h_addrtype
       set_h_name set_h_aliases set_result strcpy store] in Htrace.
  rewrite <- !app_assoc in Htrace.
  by apply longer_trace_differs in Htrace.
Qed.

Lemma reverse_failure (addr : list byte) (len af buflen : Z)
    (m m' : machine) (st : nss_status) :
  _nss_mdns_gethostbyaddr_r PS bld env addr len af buflen m = Ret (st, m') →
  st ≠ NSS_STATUS_SUCCESS →
  h_addr_list (result m') = h_addr_list (result m) ∧
  drop (Z.to_nat PS) (buffer m') = drop (Z.to_nat PS) (buffer m) ∧
  (st = NSS_STATUS_UNAVAIL ∨ trace m' = trace m →
   buffer m' = buffer m ∧ result m' = result m).
Proof.
  intros Hcall Hst.
  destruct (open_socket env) as [fd errno] eqn:Hopen.
  destruct (reverse_answer env fd addr af) as [names r] eqn:Hanswer.
  destruct (reverse_paths PS bld env addr len af buflen m fd errno r names
              HPS Hopen Hanswer) as (tail & Heq & Htail).
  cbv zeta in Heq, Htail. rewrite Heq in Hcall. clear Heq.
  destruct (negb (len =? address_length_of af) || family_unsupported bld af);
    [by injection Hcall as <- <-|].
  destruct (buflen <? size_t PS (PS + address_length_of af));
    [by injection Hcall as <- <-|].
  destruct (fd <? 0); [by injection Hcall as <- <-|].
  destruct (r <? 0); [by injection Hcall as <- <-|].
  specialize (Htail eq_refl). destruct names as [|s names]; [by subst|].
  destruct (strdup_ok env (length (blocks m))); [|by subst].
  destruct Htail as (written & -> & _).
  case_match; injection Hcall as <- <-; [|done].
  match goal with
  | |- context [reverse_prefix PS ?m1] =>
      destruct (reverse_prefix_footprint m1) as [Hlist Hdrop]
  end.
  split; [exact Hlist|]. split; [exact Hdrop|].
  intros [Hun|Htrace]; [discriminate|]. exfalso.
  cbn [trace log set_errors reverse_prefix set_h_aliases set_result store
       set_blocks] in Htrace.
  rewrite <- !app_assoc in Htrace.
  by apply longer_trace_differs in Htrace.
Qed.

(** What the forward lookup has written when its second capacity check
    fails. *)
Lemma forward_prefix_written (name : list byte) (af : Z) (m : machine) :
  let m' := forward_prefix PS name af m in
  h_aliases (result m') = BufPtr 0 ∧
  stores m' = stores m ++ [(0, PS); (PS, strlen name + 1)] ∧
  h_name (result m') = BufPtr PS ∧
  h_addrtype (result m') = af ∧
  h_length (result m') = address_length_of af ∧
  (PS + strlen name + 1 ≤ Z.of_nat (length (buffer m)) →
   load_ptr PS (buffer m') 0 = Some NULL ∧
   mem_load (buffer m') PS (strlen name + 1) = string_bytes name).
Proof.
  pose proof (length_encode_ptr PS NULL ltac:(lia)) as Henc.
  pose proof (length_string_bytes name) as Hsb.
  assert (0 ≤ strlen name) as HL by (unfold strlen; lia).
  cbv zeta. unfold forward_prefix, strcpy.
  split; [done|]. split.
  { cbn [stores set_h_length set_h_addrtype set_h_name set_h_aliases
         set_result store].
    by rewrite Henc, Hsb, <- app_assoc. }
  split; [done|]. split; [done|]. split; [done|].
  intros Hroom.
  cbn [buffer set_h_length set_h_addrtype set_h_name set_h_aliases
       set_result store].
  split.
  - rewrite (load_ptr_store_other PS) by lia.
    apply (load_ptr_store_same PS HPS); lia.
  - rewrite <- Hsb. apply mem_load_store_same; [lia|].
    rewrite length_mem_store. lia.
Qed.

Lemma reverse_prefix_written (m : machine) :
  let m' := reverse_prefix PS m in
  h_aliases (result m') = BufPtr 0 ∧
  stores m' = stores m ++ [(0, PS)] ∧
  h_name (result m') = h_name (result m) ∧
  h_addrtype (result m') = h_addrtype (result m) ∧
  h_length (result m') = h_length (result m) ∧
  (PS ≤ Z.of_nat (length (buffer m)) →
   load_ptr PS (buffer m') 0 = Some NULL).
Proof.
  pose proof (length_encode_ptr PS NULL ltac:(lia)) as Henc.
  cbv zeta. unfold reverse_prefix.
  split; [done|]. split.
  { cbn [stores set_h_aliases set_result store]. by rewrite Henc. }
  split; [done|]. split; [done|]. split; [done|].
  intros Hroom. cbn [buffer set_h_aliases set_result store].
  apply (load_ptr_store_same PS HPS); lia.
Qed.

Lemma forward_second_check_failure (name : list byte) (af buflen : Z)
    (m m' : machine) :
  _nss_mdns_gethostbyname2_r PS bld env name af buflen m
    = (NSS_STATUS_TRYAGAIN, m') →
  trace m' ≠ trace m →
  h_aliases (result m') = BufPtr 0 ∧
  stores m' = stores m ++ [(0, PS); (PS, strlen name + 1)] ∧
  h_name (result m') = BufPtr PS ∧
  h_addrtype (result m') = af ∧
  h_length (result m') = address_length_of af ∧
  (Z.of_nat (length (buffer m)) = buflen →
   PS + strlen name + 1 ≤ SIZE_MAX PS →
   load_ptr PS (buffer m') 0 = Some NULL ∧
   mem_load (buffer m') PS (strlen name + 1) = string_bytes name).
Proof.
  intros Hcall Htrace.
  assert (0 ≤ strlen name) as HL by (unfold strlen; lia).
  destruct (open_socket env) as [fd errno] eqn:Hopen.
  destruct (query_name env fd name (af =? AF_INET) (af =? AF_INET6))
    as [answers r] eqn:Hquery.
  destruct (forward_paths PS bld env name af buflen m fd errno r answers
              Hopen Hquery) as (written & Heq & Htr).
  cbv zeta in Heq. rewrite Heq in Hcall. clear Heq.
  destruct (family_unsupported bld af); [discriminate|].
  destruct (Z.ltb_spec buflen (size_t PS (PS + strlen name + 1)))
    as [|Hcoarse]; [by injection Hcall as <-|].
  destruct (fd <? 0); [discriminate|].
  destruct (r <? 0); [discriminate|].
  destruct (buflen <? _); [|discriminate].
  injection Hcall as <-.
  destruct (forward_prefix_written name af
              (log (EvQueryName fd name r) (log (EvOpen fd) m)))
    as (H1 & H2 & H3 & H4 & H5 & H6).
  cbv zeta in H1, H2, H3, H4, H5, H6.
  split; [exact H1|]. split; [exact H2|]. split; [exact H3|].
  split; [exact H4|]. split; [exact H5|].
  intros Hlen Hfits. rewrite size_t_small in Hcoarse by lia.
  apply H6. rewrite !buffer_log. lia.
Qed.

Lemma reverse_second_check_failure (addr : list byte) (len af buflen : Z)
    (m m' : machine) :
  _nss_mdns_gethostbyaddr_r PS bld env addr len af buflen m
    = Ret (NSS_STATUS_TRYAGAIN, m') →
  trace m' ≠ trace m →
  h_aliases (result m') = BufPtr 0 ∧
  stores m' = stores m ++ [(0, PS)] ∧
  h_name (result m') = h_name (result m) ∧
  h_addrtype (result m') = h_addrtype (result m) ∧
  h_length (result m') = h_length (result m) ∧
  (Z.of_nat (length (buffer m)) = buflen →
   load_ptr PS (buffer m') 0 = Some NULL).
Proof.
  intros Hcall Htrace.
  pose proof (address_length_bounds af) as HW.
  pose proof (small_sizes_fit PS HPS) as Hsmall.
  destruct (open_socket env) as [fd errno] eqn:Hopen.
  destruct (reverse_answer env fd addr af) as [names r] eqn:Hanswer.
  destruct (reverse_paths PS bld env addr len af buflen m fd errno r names
              HPS Hopen Hanswer) as (tail & Heq & Htail).
  cbv zeta in Heq, Htail. rewrite Heq in Hcall. clear Heq.
  destruct (negb (len =? address_length_of af) || family_unsupported bld af);
    [discriminate|].
  destruct (Z.ltb_spec buflen (size_t PS (PS + address_length_of af)))
    as [|Hcoarse]; [by injection Hcall as <-|].
  destruct (fd <? 0); [discriminate|].
  destruct (r <? 0); [discriminate|].
  specialize (Htail eq_refl). destruct names as [|s names]; [by subst|].
  destruct (strdup_ok env (length (blocks m))); [|by subst].
  destruct Htail as (written & -> & _).
  destruct (buflen <? _); [|discriminate].
  injection Hcall as <-.
  match goal with
  | |- context [reverse_prefix PS ?x] =>
      destruct (reverse_prefix_written x) as (H1 & H2 & H3 & H4 & H5 & H6)
  end.
  cbv zeta in H1, H2, H3, H4, H5, H6.
  split; [exact H1|]. split; [exact H2|]. split; [exact H3|].
  split; [exact H4|]. split; [exact H5|].
  intros Hlen. rewrite size_t_small in Hcoarse by lia.
  apply H6. cbn [buffer log set_blocks set_errors]. lia.
Qed.

(** C7, as the code has it.  For every call that returns a status other
    than [NSS_STATUS_SUCCESS]: [h_addr_list] is as it was, and so is the
    buffer from the end of the part written before the second capacity
    check on (the alias terminator, and the name in a forward lookup); when
    the status is [NSS_STATUS_UNAVAIL] or the call made no call of its own,
    which leaves only the failure of the second capacity check, the whole
    buffer and [*result] are as they were.  A call that fails the second
    capacity check ([NSS_STATUS_TRYAGAIN] after calls to the collaborator)
    has written what precedes that check, and only that: its stores are the
    alias terminator at offset 0 and, in a forward lookup, the name with
    its NUL at [sizeof(char * )]; [h_aliases] is the buffer; a forward
    lookup has set [h_name], [h_addrtype] and [h_length], a reverse lookup
    has left them as they were; and in a buffer of [buflen] bytes (the size
    of the first check within [size_t]) the NULL alias entry and the name
    are read back. *)
Theorem failed_call_writes_at_most_the_prefix (rq : request) (buflen : Z)
    (m m' : machine) (st : nss_status) :
  call PS bld env rq buflen m = Ret (st, m') →
  st ≠ NSS_STATUS_SUCCESS →
  h_addr_list (result m') = h_addr_list (result m) ∧
  drop (Z.to_nat (prefix_size PS rq)) (buffer m')
    = drop (Z.to_nat (prefix_size PS rq)) (buffer m) ∧
  (st = NSS_STATUS_UNAVAIL ∨ trace m' = trace m →
   buffer m' = buffer m ∧ result m' = result m) ∧
  (st = NSS_STATUS_TRYAGAIN → trace m' ≠ trace m →
   prefix_written PS bld rq m m' ∧
   (Z.of_nat (length (buffer m)) = buflen →
    coarse_size PS bld rq ≤ SIZE_MAX PS →
    prefix_readable PS rq m')).
Proof.
  intros Hcall Hst.
  assert (h_addr_list (result m') = h_addr_list (result m) ∧
          drop (Z.to_nat (prefix_size PS rq)) (buffer m')
            = drop (Z.to_nat (prefix_size PS rq)) (buffer m) ∧
          (st = NSS_STATUS_UNAVAIL ∨ trace m' = trace m →
           buffer m' = buffer m ∧ result m' = result m))
    as (Hlist & Hdrop & Hsame).
  { destruct rq as [name af|name|addr len af]; cbn [call prefix_size] in *.
    - injection Hcall as Hcall. by eapply forward_failure.
    - injection Hcall as Hcall. by eapply forward_failure.
    - by eapply reverse_failure. }
  split; [exact Hlist|]. split; [exact Hdrop|]. split; [exact Hsame|].
  intros -> Htrace.
  destruct rq as [name af|name|addr len af];
    cbn [call prefix_written prefix_readable coarse_size family_of] in *.
  - injection Hcall as Hcall.
    destruct (forward_second_check_failure name af buflen m m' Hcall Htrace)
      as (H1 & H2 & H3 & H4 & H5 & H6).
    repeat split; auto; by apply H6.
  - injection Hcall as Hcall. unfold _nss_mdns_gethostbyname_r in Hcall.
    destruct (forward_second_check_failure name _ buflen m m' Hcall Htrace)
      as (H1 & H2 & H3 & H4 & H5 & H6).
    repeat split; auto; by apply H6.
  - destruct (reverse_second_check_failure addr len af buflen m m' Hcall
                Htrace) as (H1 & H2 & H3 & H4 & H5 & H6).
    repeat split; auto.
Qed.

End Failure.

(** ** The properties on the concrete run *)

(** C1 on [foo.local] with two IPv4 addresses and 8-byte pointers: the
    record takes 8 + 10 + 8 + 24 = 50 bytes. *)
Lemma exact_buffer_fits_witness :
  (_nss_mdns_gethostbyname2_r 8 ex_build ex_env ex_name AF_INET 50
     (ex_machine 50)).1 = NSS_STATUS_SUCCESS ∧
  (_nss_mdns_gethostbyname2_r 8 ex_build ex_env ex_name AF_INET 49
     (ex_machine 50)).1 = NSS_STATUS_TRYAGAIN ∧
  errnop (_nss_mdns_gethostbyname2_r 8 ex_build ex_env ex_name AF_INET 49
            (ex_machine 50)).2 = ERANGE.
Proof.
  refine (proj2 (exact_buffer_fits_one_less_does_not 8 ex_build ex_env
            ex_name AF_INET (ex_machine 50) 3 0 0
            [A4 ex_addr1; A4 ex_addr2] _ _ _ _ _ _ _)).
  - lia.
  - reflexivity.
  - reflexivity.
  - lia.
  - reflexivity.
  - lia.
  - vm_compute. discriminate.
Defined.

Lemma ex_name_cstring : cstring ex_name.
Proof. unfold cstring, ex_name. repeat constructor; discriminate. Defined.

(** C2 on the same run. *)
Lemma forward_record_reads_back_witness :
  let m' :=
    (_nss_mdns_gethostbyname2_r 8 ex_build ex_env ex_name AF_INET 50
       (ex_machine 50)).2 in
  ∃ name_off alias_off list_off : Z,
    h_name (result m') = BufPtr name_off ∧
    load_cstring (buffer m') name_off = Some ex_name ∧
    h_aliases (result m') = BufPtr alias_off ∧
    load_ptr 8 (buffer m') alias_off = Some NULL ∧
    h_addr_list (result m') = BufPtr list_off ∧
    (∀ (i : nat) (a : list byte),
       accumulated AF_INET [A4 ex_addr1; A4 ex_addr2] !! i = Some a →
       ∃ p : Z,
         load_ptr 8 (buffer m') (list_off + 8 * Z.of_nat i)
           = Some (BufPtr p) ∧
         0 ≤ p ∧ p + address_length_of AF_INET ≤ 50 ∧
         mem_load (buffer m') p (address_length_of AF_INET) = MByte <$> a) ∧
    load_ptr 8 (buffer m')
      (list_off
       + 8 * Z.of_nat (length (accumulated AF_INET [A4 ex_addr1; A4 ex_addr2])))
      = Some NULL ∧
    h_addrtype (result m') = AF_INET ∧
    h_length (result m') = address_length_of AF_INET.
Proof.
  refine (forward_record_reads_back 8 ex_build ex_env ex_name AF_INET 50
            (ex_machine 50) _ 3 0 0 [A4 ex_addr1; A4 ex_addr2]
            _ ex_name_cstring _ _ _ _ _).
  - lia.
  - reflexivity.
  - reflexivity.
  - reflexivity.
  - vm_compute. discriminate.
  - vm_compute. reflexivity.
Defined.

(** C3 on the same run. *)
Lemma success_stays_inside_buffer_witness :
  record_inside 8 50 (ex_machine 50)
    (_nss_mdns_gethostbyname2_r 8 ex_build ex_env ex_name AF_INET 50
       (ex_machine 50)).2.
Proof.
  refine (success_stays_inside_buffer 8 _ ex_build ex_env
            (GetHostByName2 ex_name AF_INET) 50 (ex_machine 50) _ _ _ _).
  - lia.
  - reflexivity.
  - vm_compute. discriminate.
  - vm_compute. reflexivity.
Defined.

(** C4 on the run in which nothing answers: the forward and the reverse
    lookup both report [HOST_NOT_FOUND] in [*h_errnop], and both return
    [NSS_STATUS_UNAVAIL], the status of a failed open, not
    [NSS_STATUS_NOTFOUND]. *)
Theorem timeout_is_reported_as_unavailable :
  let fwd :=
    _nss_mdns_gethostbyname2_r 8 ex_build ex_env_timeout ex_name AF_INET 100
      (ex_machine 100) in
  fwd.1 = NSS_STATUS_UNAVAIL ∧
  fwd.1 ≠ NSS_STATUS_NOTFOUND ∧
  errnop fwd.2 = ETIMEDOUT ∧
  h_errnop fwd.2 = HOST_NOT_FOUND ∧
  trace fwd.2 = [EvOpen 3; EvQueryName 3 ex_name (-1); EvClose 3] ∧
  ∃ m',
    _nss_mdns_gethostbyaddr_r 8 ex_build ex_env_timeout ex_peer 4 AF_INET 100
      (ex_machine 100) = Ret (NSS_STATUS_UNAVAIL, m') ∧
    errnop m' = ETIMEDOUT ∧
    h_errnop m' = HOST_NOT_FOUND ∧
    trace m' = [EvOpen 3; EvQueryIpv4 3 ex_peer (-1); EvClose 3].
Proof.
  vm_compute. repeat split; try discriminate.
  eexists. repeat split.
Qed.

(** C5 on a forward lookup for family 7. *)
Lemma invalid_argument_is_rejected_witness :
  ∃ m',
    call 8 ex_build ex_env (GetHostByName2 ex_name 7) 50 (ex_machine 50)
      = Ret (NSS_STATUS_UNAVAIL, m') ∧
    errnop m' = EINVAL ∧
    h_errnop m' = NO_RECOVERY ∧
    trace m' = trace (ex_machine 50) ∧
    buffer m' = buffer (ex_machine 50) ∧
    result m' = result (ex_machine 50).
Proof.
  refine (invalid_argument_is_rejected 8 ex_build ex_env
            (GetHostByName2 ex_name 7) 50 (ex_machine 50) _).
  reflexivity.
Defined.

(** C6 on seventeen offers of the name [foo.local], ten bytes each. *)
Lemma offers_beyond_cap_are_dropped_witness :
  let es := replicate 17 (EName ex_name) in
  let u := (foldl (offer 8 ex_env) (userdata_init 8, []) (take 17 es)).1 in
  count u = MAX_ENTRIES ∧
  data_len u = total_size (take (Z.to_nat MAX_ENTRIES) es).
Proof.
  refine (offers_beyond_cap_are_dropped 8 ex_env []
            (replicate 17 (EName ex_name)) 1 17 _ _ _ _).
  - lia.
  - reflexivity.
  - vm_compute. discriminate.
  - vm_compute. lia.
Defined.

(** C7 as the spec states it fails on the run of C1 with 49 bytes: the call
    returns [NSS_STATUS_TRYAGAIN], and the alias terminator and the name are
    in the buffer and [h_aliases], [h_name], [h_addrtype] and [h_length] are
    set. *)
Lemma failed_call_leaves_part_of_the_record :
  let m := ex_machine 49 in
  let out :=
    _nss_mdns_gethostbyname2_r 8 ex_build ex_env ex_name AF_INET 49 m in
  out.1 = NSS_STATUS_TRYAGAIN ∧
  out.1 ≠ NSS_STATUS_SUCCESS ∧
  buffer out.2 ≠ buffer m ∧
  result out.2 ≠ result m ∧
  load_cstring (buffer out.2) 8 = Some ex_name ∧
  h_name (result out.2) = BufPtr 8 ∧
  h_addr_list (result out.2) = NULL.
Proof.
  vm_compute. repeat split; discriminate.
Qed.

(** C7 as the code has it, on the same run: the call fails the second
    capacity check, and the alias terminator and the name are written and
    read back. *)
Lemma failed_call_writes_at_most_the_prefix_witness :
  let m := ex_machine 49 in
  let rq := GetHostByName2 ex_name AF_INET in
  let m' :=
    (_nss_mdns_gethostbyname2_r 8 ex_build ex_env ex_name AF_INET 49 m).2 in
  h_addr_list (result m') = h_addr_list (result m) ∧
  drop 18 (buffer m') = drop 18 (buffer m) ∧
  (NSS_STATUS_TRYAGAIN = NSS_STATUS_UNAVAIL ∨ trace m' = trace m →
   buffer m' = buffer m ∧ result m' = result m) ∧
  prefix_written 8 ex_build rq m m' ∧
  prefix_readable 8 rq m'.
Proof.
  intros m rq m'.
  assert (call 8 ex_build ex_env rq 49 m = Ret (NSS_STATUS_TRYAGAIN, m'))
    as Hcall by (vm_compute; reflexivity).
  assert (4 ≤ 8) as HPS by lia.
  assert (NSS_STATUS_TRYAGAIN ≠ NSS_STATUS_SUCCESS) as Hst by discriminate.
  destruct (failed_call_writes_at_most_the_prefix 8 HPS ex_build ex_env rq
              49 m m' NSS_STATUS_TRYAGAIN Hcall Hst) as (H1 & H2 & H3 & H4).
  destruct (H4 eq_refl) as [H5 H6].
  { vm_compute. discriminate. }
  split; [exact H1|]. split; [exact H2|]. split; [exact H3|].
  split; [exact H5|].
  apply H6.
  - reflexivity.
  - vm_compute. discriminate.
Defined.

(** C8 on the run of C1. *)
Lemma channel_released_once_witness :
  ∃ evs,
    trace (_nss_mdns_gethostbyname2_r 8 ex_build ex_env ex_name AF_INET 50
             (ex_machine 50)).2
      = trace (ex_machine 50) ++ evs ∧
    released_once evs.
Proof.
  refine (channel_released_once 8 ex_build ex_env
            (GetHostByName2 ex_name AF_INET) 50 (ex_machine 50) _
            NSS_STATUS_SUCCESS _ _).
  - lia.
  - vm_compute. reflexivity.
Defined.

(** C10 on a reverse lookup of 192.168.1.1 whose query succeeds and finds
    no name. *)
Lemma reverse_lookup_asserts_a_name_witness :
  let run :=
    _nss_mdns_gethostbyaddr_r 8 ex_build ex_env_silent ex_peer 4 AF_INET 100
      (ex_machine 100) in
  (@nil (list byte) = [] → run = AssertFail) ∧
  (∀ st m', run = Ret (st, m') →
     @nil (list byte) ≠ [] ∧ strdup_ok ex_env_silent 0 = true) ∧
  run ≠ Undefined.
Proof.
  refine (reverse_lookup_asserts_a_name 8 ex_build ex_env_silent ex_peer 4
            AF_INET 100 (ex_machine 100) 3 0 0 [] _ _ _ _ _ _ _).
  - lia.
  - reflexivity.
  - vm_compute. discriminate.
  - reflexivity.
  - lia.
  - reflexivity.
  - lia.
Defined.

(** ** Status, error codes and heap of every path *)

Section States.

Context (PS : Z) (bld : build) (env : collaborator).

(** [forward_paths], with what the successful path leaves in [*errnop],
    [*h_errnop] and on the heap. *)
Lemma forward_paths_state (name : list byte) (af buflen : Z) (m : machine)
    (fd errno r : Z) (answers : list answer) :
  open_socket env = (fd, errno) →
  query_name env fd name (af =? AF_INET) (af =? AF_INET6) = (answers, r) →
  let m1 := log (EvQueryName fd name r) (log (EvOpen fd) m) in
  let u := forward_accumulator PS af answers in
  let c1 := buflen <? size_t PS (PS + strlen name + 1) in
  let c2 :=
    buflen <?
    size_t PS (size_t PS (PS + (strlen name + 1)) + data_len u
               + PS * (count u + 1)) in
  ∃ written : machine,
    _nss_mdns_gethostbyname2_r PS bld env name af buflen m =
      (if family_unsupported bld af then
         (NSS_STATUS_UNAVAIL, set_errors EINVAL NO_RECOVERY m)
       else if c1 then
         (NSS_STATUS_TRYAGAIN, set_errors ERANGE NO_RECOVERY m)
       else if fd <? 0 then
         (NSS_STATUS_UNAVAIL,
          set_errors errno NO_RECOVERY (log (EvOpen fd) m))
       else if r <? 0 then
         (NSS_STATUS_UNAVAIL,
          log (EvClose fd) (set_errors ETIMEDOUT HOST_NOT_FOUND m1))
       else if c2 then
         (NSS_STATUS_TRYAGAIN,
          log (EvClose fd)
            (set_errors ERANGE NO_RECOVERY (forward_prefix PS name af m1)))
       else (NSS_STATUS_SUCCESS, log (EvClose fd) written)) ∧
    errnop written = errnop m ∧
    h_errnop written = h_errnop m ∧
    blocks written = blocks m.
Proof.
  intros Hopen Hquery m1 u c1 c2.
  eexists. split.
  - unfold _nss_mdns_gethostbyname2_r, c1, c2.
    destruct (family_unsupported bld af); [reflexivity|].
    destruct (buflen <? size_t PS (PS + strlen name + 1));
      [by rewrite finish_closed|].
    unfold mdns_open_socket. rewrite Hopen.
    destruct (fd <? 0) eqn:Hfd; [by rewrite finish_closed|].
    unfold mdns_query_name. rewrite !wanted, Hquery.
    fold (forward_accumulator PS af answers). fold u. fold m1.
    destruct (r <? 0); [by rewrite finish_open|].
    assert (int (address_length_of af) = address_length_of af) as ->.
    { unfold address_length_of. by destruct (af =? AF_INET). }
    fold (forward_prefix PS name af m1).
    destruct (buflen <? _); [by rewrite finish_open|].
    match goal with
    | |- context [address_array PS ?n ?i ?x ?a ?w ?m0] =>
        rewrite (surjective_pairing (address_array PS n i x a w m0))
    end.
    rewrite finish_open by done. reflexivity.
  - cbn [errnop h_errnop blocks set_h_addr_list set_result store].
    match goal with
    | |- context [address_array PS ?n ?i ?x ?a ?w ?m0] =>
        destruct (address_array_frame PS n i x a w m0)
          as (_ & _ & -> & -> & -> & _ & _)
    end.
    done.
Qed.

(** [reverse_paths], with what the successful path leaves in [*errnop],
    [*h_errnop] and on the heap. *)
Lemma reverse_paths_state (addr : list byte) (len af buflen : Z)
    (m : machine) (fd errno r : Z) (names : list (list byte)) :
  4 ≤ PS →
  open_socket env = (fd, errno) →
  reverse_answer env fd addr af = (names, r) →
  let m0 := set_errors EINVAL NO_RECOVERY m in
  let h := (reverse_accumulator PS env names (blocks m)).2 in
  let m1 :=
    log (reverse_event fd addr af r) (set_blocks h (log (EvOpen fd) m0)) in
  let c1 := buflen <? size_t PS (PS + address_length_of af) in
  ∃ tail : outcome (nss_status * machine),
    _nss_mdns_gethostbyaddr_r PS bld env addr len af buflen m =
      (if negb (len =? address_length_of af) || family_unsupported bld af
       then Ret (NSS_STATUS_UNAVAIL, m0)
       else if c1 then
         Ret (NSS_STATUS_TRYAGAIN, set_errors ERANGE NO_RECOVERY m0)
       else if fd <? 0 then
         Ret (NSS_STATUS_UNAVAIL,
              set_errors errno NO_RECOVERY (log (EvOpen fd) m0))
       else if r <? 0 then
         Ret (NSS_STATUS_UNAVAIL,
              log (EvClose fd) (set_errors ETIMEDOUT HOST_NOT_FOUND m1))
       else tail) ∧
    ((fd <? 0) = false →
     match names with
     | [] => tail = AssertFail
     | s :: _ =>
         if strdup_ok env (length (blocks m)) then
           let c2 :=
             buflen <?
             size_t PS (strlen s + 1 + PS + address_length_of af + PS * 2) in
           ∃ written : machine,
             tail =
               (if c2 then
                  Ret (NSS_STATUS_TRYAGAIN,
                       log (EvClose fd)
                         (set_errors ERANGE NO_RECOVERY
                            (reverse_prefix PS m1)))
                else Ret (NSS_STATUS_SUCCESS, log (EvClose fd) written)) ∧
             errnop written = EINVAL ∧
             h_errnop written = NO_RECOVERY ∧
             blocks written = h
         else tail = AssertFail
     end).
Proof.
  intros HPS Hopen Hanswer m0 h m1 c1.
  eexists. split.
  - unfold _nss_mdns_gethostbyaddr_r, c1. cbv zeta.
    assert (int (address_length_of af) = address_length_of af) as ->.
    { unfold address_length_of. by destruct (af =? AF_INET). }
    destruct (negb (len =? address_length_of af) || family_unsupported bld af);
      [reflexivity|].
    destruct (buflen <? size_t PS (PS + address_length_of af));
      [by rewrite finish_closed|].
    unfold mdns_open_socket. rewrite Hopen.
    destruct (fd <? 0) eqn:Hfd; [by rewrite finish_closed|].
    assert ((if af =? AF_INET
             then mdns_query_ipv4 env fd addr (name_callback PS env)
                    (userdata_init PS)
                    (log (EvOpen fd) (set_errors EINVAL NO_RECOVERY m))
             else mdns_query_ipv6 env fd addr (name_callback PS env)
                    (userdata_init PS)
                    (log (EvOpen fd) (set_errors EINVAL NO_RECOVERY m)))
            = (r, (reverse_accumulator PS env names (blocks m)).1, m1))
      as ->.
    { unfold m1, h, m0, reverse_answer, reverse_event in *.
      unfold mdns_query_ipv4, mdns_query_ipv6.
      destruct (af =? AF_INET); rewrite Hanswer; cbn [blocks log set_errors];
        fold (reverse_accumulator PS env names (blocks m));
        by destruct (reverse_accumulator PS env names (blocks m)). }
    destruct (r <? 0); [by rewrite finish_open|].
    reflexivity.
  - intros Hfd. destruct names as [|s names].
    + done.
    + destruct (reverse_accumulator_first PS HPS env s names (blocks m))
        as (Hc & Hp & Hs).
      cbv zeta in Hc, Hp, Hs.
      assert ((0 <? count (reverse_accumulator PS env (s :: names)
                             (blocks m)).1) = true) as -> by lia.
      cbn [negb]. rewrite Hp.
      destruct (strdup_ok env (length (blocks m))); [|done].
      assert (blocks (set_h_aliases (BufPtr 0)
                        (store 0 (encode_ptr PS NULL) m1))
              = (reverse_accumulator PS env (s :: names) (blocks m)).2)
        as -> by done.
      rewrite (Hs eq_refl). cbv zeta.
      eexists. split.
      * destruct (buflen <?
                  size_t PS (strlen s + 1 + PS + address_length_of af + PS * 2));
          rewrite finish_open by done; reflexivity.
      * done.
Qed.

Lemma forward_codes (name : list byte) (af buflen : Z) (m m' : machine)
    (st : nss_status) :
  _nss_mdns_gethostbyname2_r PS bld env name af buflen m = (st, m') →
  blocks m' = blocks m ∧
  match st with
  | NSS_STATUS_SUCCESS =>
      errnop m' = errnop m ∧ h_errnop m' = h_errnop m
  | NSS_STATUS_TRYAGAIN =>
      errnop m' = ERANGE ∧ h_errnop m' = NO_RECOVERY
  | NSS_STATUS_UNAVAIL =>
      h_errnop m' = NO_RECOVERY ∨
      (errnop m' = ETIMEDOUT ∧ h_errnop m' = HOST_NOT_FOUND)
  | _ => False
  end.
Proof.
  intros Hcall.
  destruct (open_socket env) as [fd errno] eqn:Hopen.
  destruct (query_name env fd name (af =? AF_INET) (af =? AF_INET6))
    as [answers r] eqn:Hquery.
  destruct (forward_paths_state name af buflen m fd errno r answers
              Hopen Hquery) as (written & Heq & He & Hh & Hb).
  cbv zeta in Heq. rewrite Heq in Hcall. clear Heq.
  destruct (family_unsupported bld af);
    [injection Hcall as <- <-; split; [done|by left]|].
  destruct (buflen <? size_t PS (PS + strlen name + 1));
    [by injection Hcall as <- <-|].
  destruct (fd <? 0); [injection Hcall as <- <-; split; [done|by left]|].
  destruct (r <? 0); [injection Hcall as <- <-; split; [done|by right]|].
  destruct (buflen <? _); injection Hcall as <- <-; auto.
Qed.

Lemma reverse_codes (addr : list byte) (len af buflen : Z) (m m' : machine)
    (st : nss_status) :
  4 ≤ PS →
  _nss_mdns_gethostbyaddr_r PS bld env addr len af buflen m = Ret (st, m') →
  match st with
  | NSS_STATUS_SUCCESS =>
      errnop m' = EINVAL ∧ h_errnop m' = NO_RECOVERY
  | NSS_STATUS_TRYAGAIN =>
      errnop m' = ERANGE ∧ h_errnop m' = NO_RECOVERY
  | NSS_STATUS_UNAVAIL =>
      h_errnop m' = NO_RECOVERY ∨
      (errnop m' = ETIMEDOUT ∧ h_errnop m' = HOST_NOT_FOUND)
  | _ => False
  end.
Proof.
  intros HPS Hcall.
  destruct (open_socket env) as [fd errno] eqn:Hopen.
  destruct (reverse_answer env fd addr af) as [names r] eqn:Hanswer.
  destruct (reverse_paths_state addr len af buflen m fd errno r names
              HPS Hopen Hanswer) as (tail & Heq & Htail).
  cbv zeta in Heq, Htail. rewrite Heq in Hcall. clear Heq.
  destruct (negb (len =? address_length_of af) || family_unsupported bld af);
    [injection Hcall as <- <-; by left|].
  destruct (buflen <? size_t PS (PS + address_length_of af));
    [by injection Hcall as <- <-|].
  destruct (fd <? 0); [injection Hcall as <- <-; by left|].
  destruct (r <? 0); [injection Hcall as <- <-; by right|].
  specialize (Htail eq_refl). destruct names as [|s names]; [by subst|].
  destruct (strdup_ok env (length (blocks m))); [|by subst].
  destruct Htail as (written & -> & He & Hh & _).
  destruct (buflen <? _); injection Hcall as <- <-; auto.
Qed.

(** X1. Whatever the entry point and its input, a call that returns does
    so with [NSS_STATUS_UNAVAIL], [NSS_STATUS_TRYAGAIN] or
    [NSS_STATUS_SUCCESS], never with [NSS_STATUS_NOTFOUND] or
    [NSS_STATUS_RETURN]; [NSS_STATUS_TRYAGAIN] always comes with
    [*errnop = ERANGE] and [*h_errnop = NO_RECOVERY]; and
    [NSS_STATUS_UNAVAIL] comes with [*h_errnop = NO_RECOVERY] or with
    [*errnop = ETIMEDOUT] and [*h_errnop = HOST_NOT_FOUND]. *)
Theorem returned_statuses (rq : request) (buflen : Z) (m m' : machine)
    (st : nss_status) :
  4 ≤ PS →
  call PS bld env rq buflen m = Ret (st, m') →
  (st = NSS_STATUS_UNAVAIL ∨ st = NSS_STATUS_TRYAGAIN
   ∨ st = NSS_STATUS_SUCCESS) ∧
  (st = NSS_STATUS_TRYAGAIN →
   errnop m' = ERANGE ∧ h_errnop m' = NO_RECOVERY) ∧
  (st = NSS_STATUS_UNAVAIL →
   h_errnop m' = NO_RECOVERY ∨
   (errnop m' = ETIMEDOUT ∧ h_errnop m' = HOST_NOT_FOUND)).
Proof.
  intros HPS Hcall.
  assert (match st with
          | NSS_STATUS_SUCCESS => True
          | NSS_STATUS_TRYAGAIN =>
              errnop m' = ERANGE ∧ h_errnop m' = NO_RECOVERY
          | NSS_STATUS_UNAVAIL =>
              h_errnop m' = NO_RECOVERY ∨
              (errnop m' = ETIMEDOUT ∧ h_errnop m' = HOST_NOT_FOUND)
          | _ => False
          end) as Hcodes.
  { destruct rq as [name af|name|addr len af]; cbn [call] in Hcall.
    - injection Hcall as Hcall. apply forward_codes in Hcall as [_ Hc].
      by destruct st.
    - injection Hcall as Hcall. apply forward_codes in Hcall as [_ Hc].
      by destruct st.
    - apply reverse_codes in Hcall; [|done]. by destruct st. }
  destruct st; try done.
  - split; [auto|]. split; [done|discriminate].
  - split; [auto|]. split; [discriminate|done].
  - split; [auto|]. split; discriminate.
Qed.

(** X2. A forward lookup that returns [NSS_STATUS_SUCCESS] leaves
    [*errnop] and [*h_errnop] as the caller passed them.  A reverse lookup
    that returns [NSS_STATUS_SUCCESS] leaves [*errnop = EINVAL] and
    [*h_errnop = NO_RECOVERY]: it sets both on entry and does not set them
    again on the way to success. *)
Theorem error_codes_on_success (rq : request) (buflen : Z) (m m' : machine) :
  4 ≤ PS →
  call PS bld env rq buflen m = Ret (NSS_STATUS_SUCCESS, m') →
  match rq with
  | GetHostByAddr _ _ _ => errnop m' = EINVAL ∧ h_errnop m' = NO_RECOVERY
  | _ => errnop m' = errnop m ∧ h_errnop m' = h_errnop m
  end.
Proof.
  intros HPS Hcall. destruct rq as [name af|name|addr len af];
    cbn [call] in Hcall.
  - injection Hcall as Hcall. by apply forward_codes in Hcall as [_ Hc].
  - injection Hcall as Hcall. by apply forward_codes in Hcall as [_ Hc].
  - by apply reverse_codes in Hcall.
Qed.

(** X3. When the buffer is smaller than what the first capacity check asks
    for ([sizeof(char * ) + strlen(name) + 1] in a forward lookup,
    [sizeof(char * )] plus the width of the address in a reverse lookup),
    a call with valid arguments returns [NSS_STATUS_TRYAGAIN] with
    [*errnop = ERANGE] and [*h_errnop = NO_RECOVERY] without any call to the
    collaborator, and leaves buffer and [*result] as they were. *)
Theorem small_buffer_is_refused_before_the_query (rq : request) (buflen : Z)
    (m : machine) :
  4 ≤ PS →
  invalid_argument bld rq = false →
  coarse_size PS bld rq ≤ SIZE_MAX PS →
  buflen < coarse_size PS bld rq →
  ∃ m',
    call PS bld env rq buflen m = Ret (NSS_STATUS_TRYAGAIN, m') ∧
    errnop m' = ERANGE ∧
    h_errnop m' = NO_RECOVERY ∧
    trace m' = trace m ∧
    buffer m' = buffer m ∧
    result m' = result m.
Proof.
  intros HPS Hvalid Hfits Hsmall.
  destruct rq as [name af|name|addr len af];
    cbn [call invalid_argument coarse_size] in *.
  - assert (0 ≤ strlen name) as HL by (unfold strlen; lia).
    unfold _nss_mdns_gethostbyname2_r. rewrite Hvalid.
    rewrite size_t_small by lia.
    assert ((buflen <? PS + strlen name + 1) = true) as -> by lia.
    eexists. split; [reflexivity|done].
  - assert (0 ≤ strlen name) as HL by (unfold strlen; lia).
    unfold _nss_mdns_gethostbyname_r, _nss_mdns_gethostbyname2_r.
    unfold default_family in Hvalid. rewrite Hvalid.
    rewrite size_t_small by lia.
    assert ((buflen <? PS + strlen name + 1) = true) as -> by lia.
    eexists. split; [reflexivity|done].
  - pose proof (address_length_bounds af) as HW.
    unfold _nss_mdns_gethostbyaddr_r. cbv zeta.
    assert (int (address_length_of af) = address_length_of af) as ->.
    { unfold address_length_of. by destruct (af =? AF_INET). }
    rewrite Hvalid. rewrite size_t_small by lia.
    assert ((buflen <? PS + address_length_of af) = true) as -> by lia.
    eexists. split; [reflexivity|done].
Qed.

Lemma forward_failed_open (name : list byte) (af buflen : Z) (m : machine)
    (fd errno : Z) :
  family_unsupported bld af = false →
  size_t PS (PS + strlen name + 1) ≤ buflen →
  open_socket env = (fd, errno) →
  fd < 0 →
  _nss_mdns_gethostbyname2_r PS bld env name af buflen m
  = (NSS_STATUS_UNAVAIL, set_errors errno NO_RECOVERY (log (EvOpen fd) m)).
Proof.
  intros Hfam Hcoarse Hopen Hfd.
  destruct (query_name env fd name (af =? AF_INET) (af =? AF_INET6))
    as [answers r] eqn:Hquery.
  destruct (forward_paths PS bld env name af buflen m fd errno r answers
              Hopen Hquery) as (written & Heq & _).
  cbv zeta in Heq. rewrite Heq, Hfam.
  assert ((buflen <? size_t PS (PS + strlen name + 1)) = false) as -> by lia.
  by assert ((fd <? 0) = true) as -> by lia.
Qed.

(** X4. When [mdns_open_socket] fails (a negative descriptor), a call with
    valid arguments that passed the first capacity check returns
    [NSS_STATUS_UNAVAIL] with [*errnop] set to the [errno] that the open
    left and [*h_errnop = NO_RECOVERY]; the open is the only call made (no
    query, no close), and buffer and [*result] are as they were. *)
Theorem failed_open_is_unavailable (rq : request) (buflen : Z) (m : machine)
    (fd errno : Z) :
  4 ≤ PS →
  invalid_argument bld rq = false →
  size_t PS (coarse_size PS bld rq) ≤ buflen →
  open_socket env = (fd, errno) →
  fd < 0 →
  ∃ m',
    call PS bld env rq buflen m = Ret (NSS_STATUS_UNAVAIL, m') ∧
    errnop m' = errno ∧
    h_errnop m' = NO_RECOVERY ∧
    trace m' = trace m ++ [EvOpen fd] ∧
    buffer m' = buffer m ∧
    result m' = result m.
Proof.
  intros HPS Hvalid Hcoarse Hopen Hfd.
  destruct rq as [name af|name|addr len af];
    cbn [call invalid_argument coarse_size] in *.
  - rewrite (forward_failed_open name af buflen m fd errno) by done.
    eexists. split; [reflexivity|done].
  - unfold _nss_mdns_gethostbyname_r. unfold default_family in Hvalid.
    rewrite (forward_failed_open name _ buflen m fd errno) by done.
    eexists. split; [reflexivity|done].
  - destruct (reverse_answer env fd addr af) as [names r] eqn:Hanswer.
    destruct (reverse_paths PS bld env addr len af buflen m fd errno r names
                HPS Hopen Hanswer) as (tail & Heq & _).
    cbv zeta in Heq. rewrite Heq, Hvalid.
    assert ((buflen <? size_t PS (PS + address_length_of af)) = false)
      as -> by lia.
    assert ((fd <? 0) = true) as -> by lia.
    eexists. split; [reflexivity|done].
Qed.

End States.

(** ** What the accumulators hold *)

Section Accumulated.

Context (PS : Z) (HPS : 4 ≤ PS) (env : collaborator).

(** X5. After the answers to a forward query for [af], the accumulator
    holds the first [MAX_ENTRIES] addresses of that family, in the order of
    arrival, answers of the other family left out: [count] is their number,
    [data_len] is [count] times the width, the [i]-th slot of [data] holds
    the [i]-th of them, and the used part of [data] is their
    concatenation. *)
Theorem forward_accumulator_content (af : Z) (answers : list answer) :
  af = AF_INET ∨ af = AF_INET6 →
  let u := forward_accumulator PS af answers in
  let W := address_length_of af in
  count u = Z.of_nat (length (accumulated af answers)) ∧
  count u ≤ MAX_ENTRIES ∧
  data_len u = count u * W ∧
  mem_load (data u) 0 (count u * W)
    = MByte <$> concat (accumulated af answers) ∧
  ∀ (i : nat) (a : list byte),
    accumulated af answers !! i = Some a →
    mem_load (data u) (W * Z.of_nat i) W = MByte <$> a.
Proof.
  intros Haf u W.
  destruct (forward_accumulator_holds PS HPS af answers Haf)
    as (Hc & Hk & Hd & Hlen & Htake & Hall).
  fold u W in Hc, Hd, Hlen, Htake, Hall.
  pose proof (address_length_bounds af) as HW. fold W in HW.
  assert (mem_load (data u) 0 (count u * W)
          = MByte <$> concat (accumulated af answers)) as Hload.
  { unfold mem_load. rewrite drop_0.
    replace (count u * W) with (W * count u) by lia. done. }
  split; [done|]. split; [unfold MAX_ENTRIES in *; lia|].
  split; [lia|]. split; [done|].
  intros i a Hi. apply lookup_lt_Some in Hi as Hlt.
  assert (mem_load (data u) (W * Z.of_nat i) W
          = take (Z.to_nat W)
              (drop (i * Z.to_nat W)
                 (take (Z.to_nat (W * count u)) (data u)))) as ->.
  { unfold mem_load.
    replace (Z.to_nat (W * Z.of_nat i)) with (i * Z.to_nat W)%nat by nia.
    apply list_eq. intros x. rewrite !lookup_take, !lookup_drop.
    destruct (decide (x < Z.to_nat W)%nat); [|done].
    rewrite lookup_take_lt; [done|]. nia. }
  rewrite Htake, <- fmap_drop, <- fmap_take. f_equal.
  apply concat_chunk; [|done].
  eapply Forall_impl; [exact Hall|]. simpl. intros; lia.
Qed.

Lemma name_callbacks_heap (names : list (list byte)) :
  ∀ (u : userdata) (h : heap),
    0 ≤ count u ≤ MAX_ENTRIES →
    (foldl (deliver_name (name_callback PS env)) (u, h) names).2
    = h ++ copies env h (take (Z.to_nat (MAX_ENTRIES - count u)) names).
Proof.
  unfold copies.
  induction names as [|s names IH]; intros u h Hc; cbn [foldl].
  - by rewrite take_nil, app_nil_r.
  - unfold deliver_name at 2. unfold name_callback.
    destruct (Z.leb_spec MAX_ENTRIES (count u)) as [Hfull|Hroom].
    + rewrite IH by done.
      replace (Z.to_nat (MAX_ENTRIES - count u)) with 0%nat by lia.
      by rewrite !take_0.
    + unfold strdup.
      assert (∃ k, Z.to_nat (MAX_ENTRIES - count u) = S k
                   ∧ Z.to_nat (MAX_ENTRIES - (count u + 1)) = k)
        as (k & Hk & Hk').
      { exists (Z.to_nat (MAX_ENTRIES - count u) - 1)%nat. lia. }
      rewrite Hk, firstn_cons, imap_cons, Nat.add_0_r.
      destruct (strdup_ok env (length h)); rewrite IH by (simpl; lia);
        cbn [count]; rewrite Hk', <- app_assoc; cbn [app]; do 2 f_equal;
        apply imap_ext; intros i x _; cbn [compose];
        rewrite length_app; cbn [length];
        by replace (length h + 1 + i)%nat with (length h + S i)%nat by lia.
Qed.

End Accumulated.

(** ** The heap after a reverse lookup *)

Section Heap.

Context (PS : Z) (HPS : 4 ≤ PS) (bld : build) (env : collaborator).

(** X6. A reverse lookup that reached its query copies the first
    [MAX_ENTRIES] names delivered to the heap with [strdup], one block per
    name in the order of arrival, and frees none of them: whatever status
    it returns with, the heap is the heap before the call followed by these
    blocks. *)
Theorem reverse_lookup_keeps_its_copies (addr : list byte)
    (len af buflen : Z) (m m' : machine) (st : nss_status)
    (fd errno r : Z) (names : list (list byte)) :
  invalid_argument bld (GetHostByAddr addr len af) = false →
  size_t PS (PS + address_length_of af) ≤ buflen →
  open_socket env = (fd, errno) →
  0 ≤ fd →
  reverse_answer env fd addr af = (names, r) →
  _nss_mdns_gethostbyaddr_r PS bld env addr len af buflen m = Ret (st, m') →
  blocks m' =
    blocks m ++ copies env (blocks m) (take (Z.to_nat MAX_ENTRIES) names).
Proof.
  intros Hvalid Hcoarse Hopen Hfd Hanswer Hcall.
  destruct (reverse_paths_state PS bld env addr len af buflen m fd errno r
              names HPS Hopen Hanswer) as (tail & Heq & Htail).
  cbv zeta in Heq, Htail. cbn [invalid_argument] in Hvalid.
  rewrite Heq, Hvalid in Hcall. clear Heq.
  assert ((buflen <? size_t PS (PS + address_length_of af)) = false)
    as Hc by lia.
  assert ((fd <? 0) = false) as Hfd' by lia.
  rewrite Hc, Hfd' in Hcall.
  assert ((reverse_accumulator PS env names (blocks m)).2
          = blocks m
            ++ copies env (blocks m) (take (Z.to_nat MAX_ENTRIES) names))
    as Hheap.
  { unfold reverse_accumulator.
    rewrite (name_callbacks_heap PS env names)
      by (unfold userdata_init, MAX_ENTRIES; simpl; lia).
    unfold userdata_init. cbn [count]. by rewrite Z.sub_0_r. }
  destruct (r <? 0); [by injection Hcall as <- <-|].
  specialize (Htail Hfd'). destruct names as [|s names]; [by subst|].
  destruct (strdup_ok env (length (blocks m))); [|by subst].
  destruct Htail as (written & -> & _ & _ & Hb).
  destruct (buflen <? _); injection Hcall as <- <-; [done|].
  cbn [blocks log]. by rewrite Hb.
Qed.

End Heap.

(** ** The layout of the record *)

Section Layout.

Context (PS : Z) (HPS : 4 ≤ PS) (bld : build) (env : collaborator).

Lemma address_array_drop (n : nat) :
  ∀ (i index astart W : Z) (m : machine) (j : nat),
    0 ≤ i → 0 ≤ index →
    index + PS * (i + Z.of_nat n) ≤ Z.of_nat j →
    drop j (buffer (address_array PS n i index astart W m).2)
    = drop j (buffer m).
Proof.
  induction n as [|n IH]; intros i index astart W m j Hi Hx Hj;
    cbn [address_array]; [done|].
  rewrite IH by nia. simpl. unfold mem_store.
  apply inserts_drop_after.
  pose proof (length_encode_ptr PS
    (BufPtr (astart + size_t PS (W * i))) ltac:(lia)). nia.
Qed.

(** A forward lookup that succeeds leaves the buffer behind its record as
    it was. *)
Lemma forward_record_tail (name : list byte) (af : Z) (u : userdata)
    (m : machine) :
  0 ≤ count u →
  count u * address_length_of af ≤ 256 →
  Z.of_nat (length (data u)) = sizeof_data PS →
  let required :=
    forward_required PS (strlen name) (count u) (address_length_of af) in
  drop (Z.to_nat required) (buffer (forward_record PS name af u m))
  = drop (Z.to_nat required) (buffer m).
Proof.
  intros HN Hl Hlen required.
  pose proof (address_length_bounds af) as HW.
  pose proof (sizeof_data_ge PS) as [Hsz _].
  assert (0 ≤ strlen name) as HL by (unfold strlen; lia).
  pose proof (length_encode_ptr PS NULL ltac:(lia)) as Henc.
  pose proof (length_string_bytes name) as Hsb.
  unfold required, forward_required, forward_record. cbv zeta.
  cbn [buffer set_h_addr_list set_result store].
  unfold mem_store at 1. rewrite inserts_drop_after by nia.
  rewrite address_array_drop by nia.
  unfold memcpy, forward_prefix, strcpy.
  cbn [buffer set_h_length set_h_addrtype set_h_name set_h_aliases
       set_result store].
  unfold mem_store. rewrite !inserts_drop_after; [done|lia|lia|].
  rewrite length_take. nia.
Qed.

(** X7. The layout of the record of a successful forward lookup, for a
    name of length [L] and [N] accumulated addresses of width [W]: the
    alias array is at offset 0, the name at [sizeof(char * )], the
    addresses start at [sizeof(char * ) + L + 1], the [i]-th at [W * i]
    from there, and the address array follows them; entry [i] of the
    address array points at the [i]-th address.  The record ends at
    [required], the size of section 4.2, and the buffer behind it is as it
    was, however large the buffer. *)
Theorem forward_record_layout (name : list byte) (af buflen : Z)
    (m m' : machine) (fd errno r : Z) (answers : list answer) :
  Z.of_nat (length (buffer m)) = buflen →
  open_socket env = (fd, errno) →
  query_name env fd name (af =? AF_INET) (af =? AF_INET6) = (answers, r) →
  let N := Z.of_nat (length (accumulated af answers)) in
  let W := address_length_of af in
  let astart := PS + strlen name + 1 in
  let required := forward_required PS (strlen name) N W in
  required ≤ SIZE_MAX PS →
  _nss_mdns_gethostbyname2_r PS bld env name af buflen m
    = (NSS_STATUS_SUCCESS, m') →
  h_aliases (result m') = BufPtr 0 ∧
  h_name (result m') = BufPtr PS ∧
  h_addr_list (result m') = BufPtr (astart + N * W) ∧
  (∀ i : Z, 0 ≤ i < N →
     load_ptr PS (buffer m') (astart + N * W + PS * i)
     = Some (BufPtr (astart + W * i))) ∧
  required ≤ buflen ∧
  length (buffer m') = length (buffer m) ∧
  drop (Z.to_nat required) (buffer m') = drop (Z.to_nat required) (buffer m).
Proof.
  intros Hlen Hopen Hquery N W astart required Hfits Hcall.
  subst N W astart required.
  rewrite (forward_spec PS HPS bld env name af _ m fd errno r answers
             Hopen Hquery Hfits) in Hcall.
  destruct (family_unsupported bld af) eqn:Hfam; [discriminate|].
  destruct (buflen <? PS + strlen name + 1); [discriminate|].
  destruct (fd <? 0); [discriminate|]. cbv zeta in Hcall.
  destruct (r <? 0); [discriminate|].
  destruct (Z.ltb_spec buflen
    (forward_required PS (strlen name)
       (Z.of_nat (length (accumulated af answers))) (address_length_of af)))
    as [|Hroom]; [discriminate|].
  injection Hcall as <-.
  pose proof (supported_family bld af Hfam) as Haf.
  pose proof (forward_accumulator_holds PS HPS af answers Haf) as Hu.
  pose proof Hu as (Hc & Hk & _ & Hdata & _).
  rewrite <- Hc in *.
  pose proof (address_length_bounds af) as HW.
  set (m1 := log (EvQueryName fd name r) (log (EvOpen fd) m)) in *.
  set (u := forward_accumulator PS af answers) in *.
  assert (0 ≤ count u ≤ 16) as HN by (unfold MAX_ENTRIES in Hk; lia).
  destruct (forward_record_frame PS name af u m1)
    as (_ & _ & _ & _ & Hblen & Hres).
  destruct (forward_record_loads PS HPS name af u (accumulated af answers)
              m1 Hu) as (_ & _ & Haddr & _); [simpl; lia|done|].
  rewrite result_log, buffer_log, Hres. cbn [h_aliases h_name h_addr_list].
  split; [done|]. split; [done|]. split; [done|]. split.
  - intros i Hi.
    destruct (lookup_lt_is_Some_2 (accumulated af answers) (Z.to_nat i))
      as [a Ha]; [lia|].
    destruct (Haddr _ a Ha) as [Hp _].
    by rewrite Z2Nat.id in Hp by lia.
  - split; [done|]. split; [exact Hblen|].
    apply (forward_record_tail name af u m1); [lia|nia|done].
Qed.

(** X8. A forward query that succeeds without an address of the family
    asked for is a success: the lookup returns [NSS_STATUS_SUCCESS] with an
    address array that holds the NULL entry alone, as soon as the buffer
    has room for the name and two pointers. *)
Theorem forward_lookup_without_addresses (name : list byte) (af buflen : Z)
    (m : machine) (fd errno r : Z) (answers : list answer) :
  family_unsupported bld af = false →
  Z.of_nat (length (buffer m)) = buflen →
  open_socket env = (fd, errno) →
  0 ≤ fd →
  query_name env fd name (af =? AF_INET) (af =? AF_INET6) = (answers, r) →
  0 ≤ r →
  accumulated af answers = [] →
  PS + strlen name + 1 + PS ≤ buflen →
  PS + strlen name + 1 + PS ≤ SIZE_MAX PS →
  ∃ m',
    _nss_mdns_gethostbyname2_r PS bld env name af buflen m
      = (NSS_STATUS_SUCCESS, m') ∧
    h_addr_list (result m') = BufPtr (PS + strlen name + 1) ∧
    load_ptr PS (buffer m') (PS + strlen name + 1) = Some NULL.
Proof.
  intros Hfam Hlen Hopen Hfd Hquery Hr Hnone Hroom Hfits.
  pose proof (address_length_bounds af) as HW.
  pose proof (supported_family bld af Hfam) as Haf.
  pose proof (forward_accumulator_holds PS HPS af answers Haf) as Hu.
  pose proof Hu as (Hc & _).
  rewrite Hnone in Hc. cbn [length] in Hc.
  assert (forward_required PS (strlen name)
            (Z.of_nat (length (accumulated af answers)))
            (address_length_of af) = PS + strlen name + 1 + PS) as Hreq.
  { rewrite Hnone. unfold forward_required. cbn [length]. lia. }
  rewrite (forward_spec PS HPS bld env name af _ m fd errno r answers
             Hopen Hquery) by (rewrite Hreq; lia).
  rewrite Hfam, Hreq.
  assert ((buflen <? PS + strlen name + 1) = false) as -> by lia.
  assert ((fd <? 0) = false) as -> by lia.
  assert ((r <? 0) = false) as -> by lia.
  assert ((buflen <? PS + strlen name + 1 + PS) = false) as -> by lia.
  eexists. split; [reflexivity|].
  set (m1 := log (EvQueryName fd name r) (log (EvOpen fd) m)).
  set (u := forward_accumulator PS af answers) in *.
  destruct (forward_record_frame PS name af u m1)
    as (_ & _ & _ & _ & _ & Hres).
  destruct (forward_record_loads PS HPS name af u (accumulated af answers)
              m1 Hu) as (_ & _ & _ & Hnull).
  { unfold forward_required. rewrite Hc. simpl. lia. }
  { unfold forward_required. rewrite Hc. lia. }
  rewrite result_log, buffer_log, Hres. cbn [h_addr_list].
  rewrite Hc in *. split; [f_equal; lia|].
  rewrite <- Hnull. f_equal. lia.
Qed.

End Layout.

(** ** The record of a reverse lookup *)

Section ReverseRecord.

Context (PS : Z) (HPS : 4 ≤ PS) (bld : build) (env : collaborator).

Lemma reverse_record_loads (s addr : list byte) (af : Z) (m : machine) :
  let W := address_length_of af in
  let astart := PS + strlen s + 1 in
  let index := astart + W in
  Z.of_nat (length addr) = W →
  reverse_required PS (strlen s) W ≤ Z.of_nat (length (buffer m)) →
  let b := buffer (reverse_record PS s addr af m) in
  load_ptr PS b 0 = Some NULL ∧
  mem_load b PS (strlen s + 1) = string_bytes s ∧
  mem_load b astart W = MByte <$> addr ∧
  load_ptr PS b index = Some (BufPtr astart) ∧
  load_ptr PS b (index + PS) = Some NULL.
Proof.
  intros W astart index Haddr Hroom b.
  destruct (reverse_record_frame PS s addr af m) as (_ & HB & _).
  cbv zeta in HB. fold W astart index in HB. subst b. rewrite HB. clear HB.
  pose proof (address_length_bounds af) as HW. fold W in HW.
  assert (0 ≤ strlen s) as HL by (unfold strlen; lia).
  unfold reverse_required in Hroom.
  pose proof (length_encode_ptr PS NULL ltac:(lia)) as Henc.
  pose proof (length_encode_ptr PS (BufPtr astart) ltac:(lia)) as Henc'.
  pose proof (length_string_bytes s) as Hsb.
  assert (take (Z.to_nat W) (MByte <$> addr) = MByte <$> addr) as ->.
  { apply take_ge. rewrite length_fmap. lia. }
  assert (Z.of_nat (length (MByte <$> addr)) = W) as Hvs
    by (rewrite length_fmap; lia).
  replace (index + PS * 1) with (index + PS) by lia.
  unfold index, astart in *.
  split; [|split; [|split; [|split]]].
  - rewrite !(load_ptr_store_other PS) by lia.
    apply (load_ptr_store_same PS HPS); lia.
  - rewrite !mem_load_store_other by lia.
    rewrite <- Hsb. apply mem_load_store_same; [lia|].
    rewrite length_mem_store. lia.
  - rewrite !mem_load_store_other by lia.
    match goal with
    | |- mem_load (mem_store ?B ?o ?vs) _ _ = _ =>
        pose proof (mem_load_store_same B o vs) as Hsame
    end.
    rewrite Hvs in Hsame. apply Hsame; [lia|].
    rewrite !length_mem_store. lia.
  - rewrite (load_ptr_store_other PS) by lia.
    apply (load_ptr_store_same PS HPS); [lia|].
    rewrite !length_mem_store. lia.
  - apply (load_ptr_store_same PS HPS); [lia|].
    rewrite !length_mem_store. lia.
Qed.

(** X9. After a reverse lookup returned [NSS_STATUS_SUCCESS] (the address
    [len] bytes long, the buffer [buflen] bytes long, the first name found
    a C string whose record fits in [size_t]): [h_name] points at a
    NUL-terminated copy of the first name that the query delivered, the
    later names being left out; [h_aliases] points at a NULL entry;
    [h_addr_list[0]] points at a copy of the address that was looked up,
    behind the name, and [h_addr_list[1]] is NULL; [h_addrtype] is the
    family and [h_length] is [len]. *)
Theorem reverse_record_reads_back (addr : list byte) (len af buflen : Z)
    (m m' : machine) (fd errno r : Z) (names : list (list byte)) :
  Z.of_nat (length addr) = len →
  Z.of_nat (length (buffer m)) = buflen →
  open_socket env = (fd, errno) →
  reverse_answer env fd addr af = (names, r) →
  (∀ s, head names = Some s →
        cstring s ∧
        reverse_required PS (strlen s) (address_length_of af)
          ≤ SIZE_MAX PS) →
  _nss_mdns_gethostbyaddr_r PS bld env addr len af buflen m
    = Ret (NSS_STATUS_SUCCESS, m') →
  ∃ (s : list byte) (list_off : Z),
    head names = Some s ∧
    h_name (result m') = BufPtr PS ∧
    load_cstring (buffer m') PS = Some s ∧
    h_aliases (result m') = BufPtr 0 ∧
    load_ptr PS (buffer m') 0 = Some NULL ∧
    h_addr_list (result m') = BufPtr list_off ∧
    load_ptr PS (buffer m') list_off = Some (BufPtr (PS + strlen s + 1)) ∧
    mem_load (buffer m') (PS + strlen s + 1) len = MByte <$> addr ∧
    load_ptr PS (buffer m') (list_off + PS) = Some NULL ∧
    h_addrtype (result m') = af ∧
    h_length (result m') = len.
Proof.
  intros Haddr Hlen Hopen Hanswer Hnames Hcall.
  rewrite (reverse_spec PS HPS bld env addr len af buflen m fd errno r
             names Hopen Hanswer) in Hcall by (intros s Hs; by apply Hnames).
  cbv zeta in Hcall.
  destruct (negb (len =? address_length_of af) || family_unsupported bld af)
    eqn:Hvalid; [discriminate|].
  assert (len = address_length_of af) as Hw.
  { apply orb_false_elim in Hvalid as [Hv _]. apply negb_false_iff in Hv.
    lia. }
  destruct (buflen <? PS + address_length_of af); [discriminate|].
  destruct (fd <? 0); [discriminate|].
  destruct (r <? 0); [discriminate|].
  destruct names as [|s names]; [discriminate|].
  destruct (strdup_ok env (length (blocks m))); [|discriminate].
  destruct (Z.ltb_spec buflen
    (reverse_required PS (strlen s) (address_length_of af)))
    as [|Hroom]; [discriminate|].
  injection Hcall as <-.
  destruct (Hnames s eq_refl) as [Hs _].
  match goal with
  | |- context [reverse_record PS s addr af ?x] => set (m1 := x)
  end.
  destruct (reverse_record_frame PS s addr af m1) as (Hres & _ & _).
  destruct (reverse_record_loads s addr af m1)
    as (Halias & Hstr & Hbytes & Hp & Hnull); [lia|simpl; lia|].
  cbv zeta in Hres, Halias, Hstr, Hbytes, Hp, Hnull.
  exists s, (PS + strlen s + 1 + address_length_of af).
  rewrite !result_log, !buffer_log, Hres.
  cbn [h_name h_aliases h_addrtype h_length h_addr_list head].
  rewrite Hw.
  repeat split; try done. by apply load_cstring_stored.
Qed.

(** X10. In a reverse lookup that reaches the second capacity check with
    [s] the first name found, of length [L], and addresses of width [W],
    let [required = sizeof(char * ) + L + 1 + W + 2 * sizeof(char * )], a
    number that fits in a [size_t]: the call with [buflen = required]
    returns [NSS_STATUS_SUCCESS], and the call with
    [buflen = required - 1] returns [NSS_STATUS_TRYAGAIN] with
    [*errnop = ERANGE]. *)
Theorem reverse_exact_buffer_fits (addr : list byte) (len af : Z)
    (m : machine) (fd errno r : Z) (s : list byte)
    (names : list (list byte)) :
  invalid_argument bld (GetHostByAddr addr len af) = false →
  open_socket env = (fd, errno) →
  0 ≤ fd →
  reverse_answer env fd addr af = (s :: names, r) →
  0 ≤ r →
  strdup_ok env (length (blocks m)) = true →
  let required := PS + strlen s + 1 + address_length_of af + PS * 2 in
  required ≤ SIZE_MAX PS →
  ∃ m1 m2,
    _nss_mdns_gethostbyaddr_r PS bld env addr len af required m
      = Ret (NSS_STATUS_SUCCESS, m1) ∧
    _nss_mdns_gethostbyaddr_r PS bld env addr len af (required - 1) m
      = Ret (NSS_STATUS_TRYAGAIN, m2) ∧
    errnop m2 = ERANGE.
Proof.
  intros Hvalid Hopen Hfd Hanswer Hr Hok required Hfits.
  pose proof (address_length_bounds af) as HW.
  assert (0 ≤ strlen s) as HL by (unfold strlen; lia).
  cbn [invalid_argument] in Hvalid.
  rewrite !(reverse_spec PS HPS bld env addr len af _ m fd errno r
              (s :: names) Hopen Hanswer)
    by (intros s' Hs'; injection Hs' as <-; exact Hfits).
  cbv zeta. rewrite Hvalid, Hok.
  assert ((fd <? 0) = false) as -> by lia.
  assert ((r <? 0) = false) as -> by lia.
  unfold reverse_required. fold required.
  assert ((required <? PS + address_length_of af) = false) as ->
    by (unfold required; lia).
  assert ((required - 1 <? PS + address_length_of af) = false) as ->
    by (unfold required; lia).
  assert ((required <? required) = false) as -> by lia.
  assert ((required - 1 <? required) = true) as -> by lia.
  eexists _, _. split; [reflexivity|]. split; [reflexivity|done].
Qed.

End ReverseRecord.

(** ** The default family and the build *)

Section Builds.

Context (PS : Z) (bld : build) (env : collaborator).

(** X11. [_nss_mdns_gethostbyname_r] picks its family with
    [#ifdef NSS_IPV6_ONLY], while [_nss_mdns_gethostbyname2_r] tests
    [NSS_IPV4_ONLY] first.  In a build with both switches set every call of
    [_nss_mdns_gethostbyname_r] is rejected with [EINVAL] before anything
    else is done; in every other build the family it picks is one that
    [_nss_mdns_gethostbyname2_r] accepts. *)
Theorem gethostbyname_family_and_build (name : list byte) (buflen : Z)
    (m : machine) :
  if NSS_IPV4_ONLY bld && NSS_IPV6_ONLY bld then
    _nss_mdns_gethostbyname_r PS bld env name buflen m
    = (NSS_STATUS_UNAVAIL, set_errors EINVAL NO_RECOVERY m)
  else
    family_unsupported bld (if NSS_IPV6_ONLY bld then AF_INET6 else AF_INET)
    = false.
Proof.
  unfold _nss_mdns_gethostbyname_r, _nss_mdns_gethostbyname2_r,
    family_unsupported.
  by destruct (NSS_IPV4_ONLY bld), (NSS_IPV6_ONLY bld).
Qed.

End Builds.

(** ** The further properties on the concrete run *)

(** X1 on the run of C1 with 49 bytes. *)
Lemma returned_statuses_witness :
  let m' :=
    (_nss_mdns_gethostbyname2_r 8 ex_build ex_env ex_name AF_INET 49
       (ex_machine 49)).2 in
  (NSS_STATUS_TRYAGAIN = NSS_STATUS_UNAVAIL
   ∨ NSS_STATUS_TRYAGAIN = NSS_STATUS_TRYAGAIN
   ∨ NSS_STATUS_TRYAGAIN = NSS_STATUS_SUCCESS) ∧
  (NSS_STATUS_TRYAGAIN = NSS_STATUS_TRYAGAIN →
   errnop m' = ERANGE ∧ h_errnop m' = NO_RECOVERY) ∧
  (NSS_STATUS_TRYAGAIN = NSS_STATUS_UNAVAIL →
   h_errnop m' = NO_RECOVERY ∨
   (errnop m' = ETIMEDOUT ∧ h_errnop m' = HOST_NOT_FOUND)).
Proof.
  refine (returned_statuses 8 ex_build ex_env
            (GetHostByName2 ex_name AF_INET) 49 (ex_machine 49) _
            NSS_STATUS_TRYAGAIN _ _).
  - lia.
  - vm_compute. reflexivity.
Defined.

(** X2 on the reverse lookup of 192.168.1.1, whose record takes
    8 + 14 + 4 + 16 = 42 bytes. *)
Lemma error_codes_on_success_witness :
  let m' :=
    machine_of
      (_nss_mdns_gethostbyaddr_r 8 ex_build ex_env ex_peer 4 AF_INET 42
         (ex_machine 42)) (ex_machine 42) in
  errnop m' = EINVAL ∧ h_errnop m' = NO_RECOVERY.
Proof.
  refine (error_codes_on_success 8 ex_build ex_env
            (GetHostByAddr ex_peer 4 AF_INET) 42 (ex_machine 42) _ _ _).
  - lia.
  - vm_compute. reflexivity.
Defined.

(** X3 on a forward lookup of [foo.local] with 17 bytes, one less than the
    first check asks for. *)
Lemma small_buffer_is_refused_before_the_query_witness :
  ∃ m',
    call 8 ex_build ex_env (GetHostByName2 ex_name AF_INET) 17
      (ex_machine 17) = Ret (NSS_STATUS_TRYAGAIN, m') ∧
    errnop m' = ERANGE ∧
    h_errnop m' = NO_RECOVERY ∧
    trace m' = trace (ex_machine 17) ∧
    buffer m' = buffer (ex_machine 17) ∧
    result m' = result (ex_machine 17).
Proof.
  refine (small_buffer_is_refused_before_the_query 8 ex_build ex_env
            (GetHostByName2 ex_name AF_INET) 17 (ex_machine 17) _ _ _ _).
  - lia.
  - reflexivity.
  - vm_compute. discriminate.
  - vm_compute. reflexivity.
Defined.

(** X4 on a reverse lookup when the open fails with [EMFILE]. *)
Lemma failed_open_is_unavailable_witness :
  ∃ m',
    call 8 ex_build ex_env_closed (GetHostByAddr ex_peer 4 AF_INET) 100
      (ex_machine 100) = Ret (NSS_STATUS_UNAVAIL, m') ∧
    errnop m' = 24 ∧
    h_errnop m' = NO_RECOVERY ∧
    trace m' = trace (ex_machine 100) ++ [EvOpen (-1)] ∧
    buffer m' = buffer (ex_machine 100) ∧
    result m' = result (ex_machine 100).
Proof.
  refine (failed_open_is_unavailable 8 ex_build ex_env_closed
            (GetHostByAddr ex_peer 4 AF_INET) 100 (ex_machine 100) (-1) 24
            _ _ _ _ _).
  - lia.
  - reflexivity.
  - vm_compute. discriminate.
  - reflexivity.
  - lia.
Defined.

(** X5 on an IPv4 query answered by 10.0.0.5, the IPv6 loopback address
    and 10.0.0.6. *)
Lemma forward_accumulator_content_witness :
  let answers := [A4 ex_addr1; A6 ex_addr6; A4 ex_addr2] in
  let u := forward_accumulator 8 AF_INET answers in
  let W := address_length_of AF_INET in
  count u = Z.of_nat (length (accumulated AF_INET answers)) ∧
  count u ≤ MAX_ENTRIES ∧
  data_len u = count u * W ∧
  mem_load (data u) 0 (count u * W)
    = MByte <$> concat (accumulated AF_INET answers) ∧
  ∀ (i : nat) (a : list byte),
    accumulated AF_INET answers !! i = Some a →
    mem_load (data u) (W * Z.of_nat i) W = MByte <$> a.
Proof.
  refine (forward_accumulator_content 8 _ AF_INET
            [A4 ex_addr1; A6 ex_addr6; A4 ex_addr2] _).
  - lia.
  - left. reflexivity.
Defined.

(** X6 on the reverse lookup of X2. *)
Lemma reverse_lookup_keeps_its_copies_witness :
  blocks (machine_of
            (_nss_mdns_gethostbyaddr_r 8 ex_build ex_env ex_peer 4 AF_INET 42
               (ex_machine 42)) (ex_machine 42))
  = blocks (ex_machine 42)
    ++ copies ex_env (blocks (ex_machine 42))
         (take (Z.to_nat MAX_ENTRIES) [ex_printer]).
Proof.
  refine (reverse_lookup_keeps_its_copies 8 _ ex_build ex_env ex_peer 4
            AF_INET 42 (ex_machine 42) _ NSS_STATUS_SUCCESS 3 0 0
            [ex_printer] _ _ _ _ _ _).
  - lia.
  - reflexivity.
  - vm_compute. discriminate.
  - reflexivity.
  - lia.
  - reflexivity.
  - vm_compute. reflexivity.
Defined.

(** X7 on the run of C1 with a buffer of 64 bytes. *)
Lemma forward_record_layout_witness :
  let m := ex_machine 64 in
  let m' :=
    (_nss_mdns_gethostbyname2_r 8 ex_build ex_env ex_name AF_INET 64 m).2 in
  h_aliases (result m') = BufPtr 0 ∧
  h_name (result m') = BufPtr 8 ∧
  h_addr_list (result m') = BufPtr 26 ∧
  (∀ i : Z, 0 ≤ i < 2 →
     load_ptr 8 (buffer m') (26 + 8 * i) = Some (BufPtr (18 + 4 * i))) ∧
  50 ≤ 64 ∧
  length (buffer m') = length (buffer m) ∧
  drop 50 (buffer m') = drop 50 (buffer m).
Proof.
  refine (forward_record_layout 8 _ ex_build ex_env ex_name AF_INET 64
            (ex_machine 64) _ 3 0 0 [A4 ex_addr1; A4 ex_addr2] _ _ _ _ _).
  - lia.
  - reflexivity.
  - reflexivity.
  - reflexivity.
  - vm_compute. discriminate.
  - vm_compute. reflexivity.
Defined.

(** X8 on a forward lookup of [foo.local] that no address answers, with
    8 + 10 + 8 = 26 bytes. *)
Lemma forward_lookup_without_addresses_witness :
  ∃ m',
    _nss_mdns_gethostbyname2_r 8 ex_build ex_env_silent ex_name AF_INET 26
      (ex_machine 26) = (NSS_STATUS_SUCCESS, m') ∧
    h_addr_list (result m') = BufPtr (8 + strlen ex_name + 1) ∧
    load_ptr 8 (buffer m') (8 + strlen ex_name + 1) = Some NULL.
Proof.
  refine (forward_lookup_without_addresses 8 _ ex_build ex_env_silent
            ex_name AF_INET 26 (ex_machine 26) 3 0 0 [] _ _ _ _ _ _ _ _ _).
  - lia.
  - reflexivity.
  - reflexivity.
  - reflexivity.
  - lia.
  - reflexivity.
  - lia.
  - reflexivity.
  - vm_compute. discriminate.
  - vm_compute. discriminate.
Defined.

Lemma ex_printer_cstring : cstring ex_printer.
Proof. unfold cstring, ex_printer. repeat constructor; discriminate. Defined.

(** X9 on the reverse lookup of X2. *)
Lemma reverse_record_reads_back_witness :
  let m' :=
    machine_of
      (_nss_mdns_gethostbyaddr_r 8 ex_build ex_env ex_peer 4 AF_INET 42
         (ex_machine 42)) (ex_machine 42) in
  ∃ (s : list byte) (list_off : Z),
    head [ex_printer] = Some s ∧
    h_name (result m') = BufPtr 8 ∧
    load_cstring (buffer m') 8 = Some s ∧
    h_aliases (result m') = BufPtr 0 ∧
    load_ptr 8 (buffer m') 0 = Some NULL ∧
    h_addr_list (result m') = BufPtr list_off ∧
    load_ptr 8 (buffer m') list_off = Some (BufPtr (8 + strlen s + 1)) ∧
    mem_load (buffer m') (8 + strlen s + 1) 4 = MByte <$> ex_peer ∧
    load_ptr 8 (buffer m') (list_off + 8) = Some NULL ∧
    h_addrtype (result m') = AF_INET ∧
    h_length (result m') = 4.
Proof.
  refine (reverse_record_reads_back 8 _ ex_build ex_env ex_peer 4 AF_INET 42
            (ex_machine 42) _ 3 0 0 [ex_printer] _ _ _ _ _ _).
  - lia.
  - reflexivity.
  - reflexivity.
  - reflexivity.
  - reflexivity.
  - intros s Hs. injection Hs as <-. split; [exact ex_printer_cstring|].
    vm_compute. discriminate.
  - vm_compute. reflexivity.
Defined.

(** X10 on the reverse lookup of X2: 42 bytes are enough, 41 are not. *)
Lemma reverse_exact_buffer_fits_witness :
  ∃ m1 m2,
    _nss_mdns_gethostbyaddr_r 8 ex_build ex_env ex_peer 4 AF_INET 42
      (ex_machine 42) = Ret (NSS_STATUS_SUCCESS, m1) ∧
    _nss_mdns_gethostbyaddr_r 8 ex_build ex_env ex_peer 4 AF_INET 41
      (ex_machine 42) = Ret (NSS_STATUS_TRYAGAIN, m2) ∧
    errnop m2 = ERANGE.
Proof.
  refine (reverse_exact_buffer_fits 8 _ ex_build ex_env ex_peer 4 AF_INET
            (ex_machine 42) 3 0 0 ex_printer [] _ _ _ _ _ _ _).
  - lia.
  - reflexivity.
  - reflexivity.
  - lia.
  - reflexivity.
  - lia.
  - reflexivity.
  - vm_compute. discriminate.
Defined.
